(** * Dark-mode hooks of the project setup guide: a shallow embedding

    The guide documents two React hooks and a switch button:

    - [useLocalStorage key initialValue]: a state cell that is initialised
      from [window.localStorage] and has an effect meant to persist it;
    - [useColorMode]: [useLocalStorage "color-mode" "dark"] plus an effect
      that keeps the class [dark] of [document.body] in step with the cell;
    - the switch button, rendered from the current mode.

    The browser platform the hooks call (JSON, Storage, DOMTokenList,
    console, React's hook runtime) is modelled first, the hooks after it,
    then the statements about them. *)

From Stdlib Require Import ZArith NArith Ascii String List Bool Lia DecimalString.
From stdpp Require Import base option strings gmap.

Set Warnings "-register-all".
Local Open Scope Z_scope.

(** ** JavaScript values *)

(** A number is kept as the decimal [(-1)^neg * coeff * 10^expo] in the
    shortest form, the one [Number::toString] prints: [coeff] has no trailing
    zero and zero is [coeff = 0, expo = 0] (its sign is kept).  JavaScript
    rounds a literal to binary64; literals of more than 15 significant digits
    or outside the binary64 range are therefore outside this representation. *)
Record number := { neg : bool; coeff : N; expo : Z }.

(** The values a state cell, a stored item or a setter argument can hold.
    Functions are not values here: the setter is never given an updater. An
    object is its own enumerable properties in enumeration order. *)
Inductive jsval :=
| JUndefined
| JNull
| JBool (b : bool)
| JNum (x : number)
| JStr (s : string)
| JArr (elements : list jsval)
| JObj (properties : list (string * jsval)).

Definition number_eqb (x y : number) : bool :=
  Bool.eqb (neg x) (neg y) && N.eqb (coeff x) (coeff y) && Z.eqb (expo x) (expo y).

(** [typeof v]. *)
Definition typeof (v : jsval) : string :=
  match v with
  | JUndefined => "undefined"
  | JNull => "object"
  | JBool _ => "boolean"
  | JNum _ => "number"
  | JStr _ => "string"
  | JArr _ | JObj _ => "object"
  end.

(** [v === s] for a string literal [s]: strict equality never converts, so
    only the primitive string [s] itself is equal to it. *)
Definition strict_eq_str (v : jsval) (s : string) : bool :=
  match v with
  | JStr t => bool_decide (t = s)
  | _ => false
  end.

(** [Object.is a b], by which React decides whether a state update or an
    effect dependency changed.  Primitives are compared by value.  Two
    compound values are the same only when they are one reference; values
    here carry no reference, and a compound value handed to a setter is taken
    to be a new one. *)
Definition Object_is (a b : jsval) : bool :=
  match a, b with
  | JUndefined, JUndefined => true
  | JNull, JNull => true
  | JBool x, JBool y => Bool.eqb x y
  | JNum x, JNum y => number_eqb x y
  | JStr x, JStr y => bool_decide (x = y)
  | _, _ => false
  end.

(** ** JSON *)

Module JSON.

Definition DQUOTE : ascii := "034"%char.
Definition BACKSLASH : ascii := "092"%char.

Definition code (c : ascii) : N := N_of_ascii c.

Definition is_ws (c : ascii) : bool :=
  let n := code c in
  (n =? 32)%N || (n =? 9)%N || (n =? 10)%N || (n =? 13)%N.

Definition is_digit (c : ascii) : bool :=
  let n := code c in (48 <=? n)%N && (n <=? 57)%N.

Definition digit_val (c : ascii) : N := (code c - 48)%N.

Fixpoint skip_ws (s : string) : string :=
  match s with
  | String c r => if is_ws c then skip_ws r else s
  | EmptyString => s
  end.

(** *** Strings *)

Definition hex_val (c : ascii) : option N :=
  let n := code c in
  if is_digit c then Some (n - 48)%N
  else if (97 <=? n)%N && (n <=? 102)%N then Some (n - 87)%N
  else if (65 <=? n)%N && (n <=? 70)%N then Some (n - 55)%N
  else None.

Definition hex4 (a b c d : ascii) : option N :=
  match hex_val a, hex_val b, hex_val c, hex_val d with
  | Some x, Some y, Some z, Some w => Some (((x * 16 + y) * 16 + z) * 16 + w)%N
  | _, _, _, _ => None
  end.

Definition byte (n : N) : ascii := ascii_of_N n.

(** A string is the bytes of its text; the code unit of a [\uXXXX] escape
    is stored as its UTF-8 bytes (a surrogate half as three bytes by
    itself). *)
Definition encode_unit (u : N) : string :=
  if (u <? 128)%N then String (byte u) EmptyString
  else if (u <? 2048)%N then
    String (byte (192 + u / 64)) (String (byte (128 + u mod 64)) EmptyString)
  else
    String (byte (224 + u / 4096))
      (String (byte (128 + (u / 64) mod 64))
         (String (byte (128 + u mod 64)) EmptyString)).

Definition simple_escape (c : ascii) : option ascii :=
  match c with
  | "034"%char => Some DQUOTE
  | "092"%char => Some BACKSLASH
  | "/"%char => Some "/"%char
  | "b"%char => Some "008"%char
  | "f"%char => Some "012"%char
  | "n"%char => Some "010"%char
  | "r"%char => Some "013"%char
  | "t"%char => Some "009"%char
  | _ => None
  end.

(** The characters after an opening quote, up to the closing one. *)
Fixpoint parse_chars (s : string) : option (string * string) :=
  match s with
  | EmptyString => None
  | String c r =>
      if Ascii.eqb c DQUOTE then Some (EmptyString, r)
      else if Ascii.eqb c BACKSLASH then
        match r with
        | String e r' =>
            if Ascii.eqb e "u" then
              match r' with
              | String h1 (String h2 (String h3 (String h4 r''))) =>
                  match hex4 h1 h2 h3 h4, parse_chars r'' with
                  | Some u, Some (body, rest) => Some (encode_unit u +:+ body, rest)
                  | _, _ => None
                  end
              | _ => None
              end
            else
              match simple_escape e, parse_chars r' with
              | Some x, Some (body, rest) => Some (String x body, rest)
              | _, _ => None
              end
        | EmptyString => None
        end
      else if (code c <? 32)%N then None
      else
        match parse_chars r with
        | Some (body, rest) => Some (String c body, rest)
        | None => None
        end
  end.

(** *** Numbers *)

Fixpoint span_digits (s : string) : list N * string :=
  match s with
  | String c r =>
      if is_digit c then let '(ds, rest) := span_digits r in (digit_val c :: ds, rest)
      else ([], s)
  | EmptyString => ([], s)
  end.

Definition N_of_digits (ds : list N) : N :=
  fold_left (fun acc d => (acc * 10 + d)%N) ds 0%N.

(** The digits without their trailing zeros, and how many were dropped. *)
Fixpoint drop_trailing_zeros (ds : list N) : list N * Z :=
  match ds with
  | [] => ([], 0)
  | d :: r =>
      let '(r', k) := drop_trailing_zeros r in
      match r' with
      | [] => if (d =? 0)%N then ([], k + 1) else ([d], k)
      | _ => (d :: r', k)
      end
  end.

Definition make_number (negative : bool) (ds : list N) (e : Z) : number :=
  let '(ds', k) := drop_trailing_zeros ds in
  let m := N_of_digits ds' in
  if (m =? 0)%N then {| neg := negative; coeff := 0; expo := 0 |}
  else {| neg := negative; coeff := m; expo := e + k |}.

(** An optional character [c] at the head of [s]: whether it was there, and
    what follows. *)
Definition optional (c : ascii) (s : string) : bool * string :=
  match s with
  | String a r => if Ascii.eqb a c then (true, r) else (false, s)
  | EmptyString => (false, s)
  end.

Definition parse_int (s : string) : option (list N * string) :=
  match s with
  | String c r =>
      if Ascii.eqb c "0" then Some ([0%N], r)
      else if is_digit c then Some (span_digits s)
      else None
  | EmptyString => None
  end.

Definition parse_frac (s : string) : option (list N * string) :=
  match optional "." s with
  | (true, r) =>
      match span_digits r with
      | ([], _) => None
      | (ds, rest) => Some (ds, rest)
      end
  | (false, _) => Some ([], s)
  end.

Definition parse_exp (s : string) : option (Z * string) :=
  match s with
  | String c r =>
      if Ascii.eqb c "e" || Ascii.eqb c "E" then
        let '(minus, r1) := optional "-" r in
        let '(_, r2) := if minus then (false, r1) else optional "+" r1 in
        match span_digits r2 with
        | ([], _) => None
        | (ds, rest) =>
            let e := Z.of_N (N_of_digits ds) in
            Some (if minus then - e else e, rest)
        end
      else Some (0, s)
  | EmptyString => Some (0, s)
  end.

Definition parse_number (s : string) : option (number * string) :=
  let '(negative, s1) := optional "-" s in
  match parse_int s1 with
  | None => None
  | Some (ids, s2) =>
      match parse_frac s2 with
      | None => None
      | Some (fds, s3) =>
          match parse_exp s3 with
          | None => None
          | Some (e, s4) =>
              Some (make_number negative (ids ++ fds) (e - Z.of_nat (length fds)), s4)
          end
      end
  end.

(** *** Objects *)

(** An array index is a canonical numeric key below [2^32 - 1]; such keys
    are enumerated first, in ascending order, the others in creation order. *)
Definition array_index (k : string) : option N :=
  match k with
  | EmptyString => None
  | String "0"%char EmptyString => Some 0%N
  | String "0"%char _ => None
  | _ =>
      match span_digits k with
      | (ds, EmptyString) =>
          let n := N_of_digits ds in
          if (n <? 4294967295)%N then Some n else None
      | _ => None
      end
  end.

Fixpoint has_key (k : string) (ps : list (string * jsval)) : bool :=
  match ps with
  | [] => false
  | (k', _) :: r => bool_decide (k' = k) || has_key k r
  end.

Fixpoint replace_value (k : string) (v : jsval) (ps : list (string * jsval))
  : list (string * jsval) :=
  match ps with
  | [] => []
  | (k', v') :: r =>
      if bool_decide (k' = k) then (k', v) :: r else (k', v') :: replace_value k v r
  end.

Fixpoint insert_index (i : N) (k : string) (v : jsval) (ps : list (string * jsval))
  : list (string * jsval) :=
  match ps with
  | [] => [(k, v)]
  | (k', v') :: r =>
      match array_index k' with
      | Some j => if (j <? i)%N then (k', v') :: insert_index i k v r
                  else (k, v) :: ps
      | None => (k, v) :: ps
      end
  end.

(** [CreateDataProperty]: a key that exists keeps its place and takes the
    new value. *)
Definition define_property (ps : list (string * jsval)) (kv : string * jsval)
  : list (string * jsval) :=
  let '(k, v) := kv in
  if has_key k ps then replace_value k v ps
  else match array_index k with
       | Some i => insert_index i k v ps
       | None => ps ++ [(k, v)]
       end.

(** *** Values *)

Fixpoint strip_prefix (p s : string) : option string :=
  match p, s with
  | EmptyString, _ => Some s
  | String a p', String b s' => if Ascii.eqb a b then strip_prefix p' s' else None
  | String _ _, EmptyString => None
  end.

Definition literal (rest_of_word : string) (v : jsval) (s : string)
  : option (jsval * string) :=
  match strip_prefix rest_of_word s with
  | Some r => Some (v, r)
  | None => None
  end.

(** The rest after [close], when that is what follows the white space. *)
Definition closes (close : ascii) (s : string) : option string :=
  match skip_ws s with
  | String c r => if Ascii.eqb c close then Some r else None
  | EmptyString => None
  end.

(** One value, after optional white space, given the parsers of what
    follows an opening bracket and an opening brace; [None] is a syntax
    error. *)
Definition value_with
    (elements : string → option (list jsval * string))
    (members : string → option (list (string * jsval) * string))
    (s : string) : option (jsval * string) :=
  match skip_ws s with
  | EmptyString => None
  | String c r =>
      if Ascii.eqb c "n" then literal "ull" JNull r
      else if Ascii.eqb c "t" then literal "rue" (JBool true) r
      else if Ascii.eqb c "f" then literal "alse" (JBool false) r
      else if Ascii.eqb c DQUOTE then
        match parse_chars r with
        | Some (body, rest) => Some (JStr body, rest)
        | None => None
        end
      else if Ascii.eqb c "[" then
        match closes "]" r with
        | Some r' => Some (JArr [], r')
        | None =>
            match elements r with
            | Some (vs, rest) => Some (JArr vs, rest)
            | None => None
            end
        end
      else if Ascii.eqb c "{" then
        match closes "}" r with
        | Some r' => Some (JObj [], r')
        | None =>
            match members r with
            | Some (ms, rest) => Some (JObj (fold_left define_property ms []), rest)
            | None => None
            end
        end
      else
        match parse_number (String c r) with
        | Some (x, rest) => Some (JNum x, rest)
        | None => None
        end
  end.

(** The elements of an array that is not empty, up to its closing bracket. *)
Definition elements_with
    (value : string → option (jsval * string))
    (elements : string → option (list jsval * string))
    (s : string) : option (list jsval * string) :=
  match value s with
  | Some (v, r) =>
      match skip_ws r with
      | EmptyString => None
      | String c r' =>
          if Ascii.eqb c "," then
            match elements r' with
            | Some (vs, rest) => Some (v :: vs, rest)
            | None => None
            end
          else if Ascii.eqb c "]" then Some ([v], r')
          else None
      end
  | None => None
  end.

(** The members of an object that is not empty, up to its closing brace. *)
Definition members_with
    (value : string → option (jsval * string))
    (members : string → option (list (string * jsval) * string))
    (s : string) : option (list (string * jsval) * string) :=
  match skip_ws s with
  | EmptyString => None
  | String c r =>
      if Ascii.eqb c DQUOTE then
        match parse_chars r with
        | Some (k, r1) =>
            match skip_ws r1 with
            | EmptyString => None
            | String c1 r2 =>
                if Ascii.eqb c1 ":" then
                  match value r2 with
                  | Some (v, r3) =>
                      match skip_ws r3 with
                      | EmptyString => None
                      | String c3 r4 =>
                          if Ascii.eqb c3 "," then
                            match members r4 with
                            | Some (ms, rest) => Some ((k, v) :: ms, rest)
                            | None => None
                            end
                          else if Ascii.eqb c3 "}" then Some ([(k, v)], r4)
                          else None
                      end
                  | None => None
                  end
                else None
            end
        | None => None
        end
      else None
  end.

(** The three parsers call each other; the fuel bounds the calls in a row.
    Every second call has read a character, so [2 * length s + 2] is never
    used up. *)
Fixpoint parse_value (fuel : nat) (s : string) : option (jsval * string) :=
  match fuel with
  | O => None
  | S fuel' => value_with (parse_elements fuel') (parse_members fuel') s
  end
with parse_elements (fuel : nat) (s : string) : option (list jsval * string) :=
  match fuel with
  | O => None
  | S fuel' => elements_with (parse_value fuel') (parse_elements fuel') s
  end
with parse_members (fuel : nat) (s : string)
  : option (list (string * jsval) * string) :=
  match fuel with
  | O => None
  | S fuel' => members_with (parse_value fuel') (parse_members fuel') s
  end.

(** [JSON.parse text] without a reviver: one value between optional white
    space and nothing after it; [None] stands for the [SyntaxError]. *)
Definition parse (text : string) : option jsval :=
  match parse_value (2 * String.length text + 2) text with
  | Some (v, rest) =>
      match skip_ws rest with
      | EmptyString => Some v
      | _ => None
      end
  | None => None
  end.

(** *** Serialisation *)

Definition hex_digit (n : N) : ascii :=
  if (n <? 10)%N then byte (48 + n) else byte (87 + n).

(** [QuoteJSONString], on the bytes of the text: the quote, the backslash
    and the control characters are escaped, every other byte is copied. *)
Fixpoint quote_chars (s : string) : string :=
  match s with
  | EmptyString => EmptyString
  | String c r =>
      let n := code c in
      (if Ascii.eqb c DQUOTE then String BACKSLASH (String DQUOTE EmptyString)
       else if Ascii.eqb c BACKSLASH then String BACKSLASH (String BACKSLASH EmptyString)
       else if (n =? 8)%N then String BACKSLASH "b"
       else if (n =? 12)%N then String BACKSLASH "f"
       else if (n =? 10)%N then String BACKSLASH "n"
       else if (n =? 13)%N then String BACKSLASH "r"
       else if (n =? 9)%N then String BACKSLASH "t"
       else if (n <? 32)%N then
         String BACKSLASH
           ("u00" +:+ String (hex_digit (n / 16)) (String (hex_digit (n mod 16)) EmptyString))
       else String c EmptyString) +:+ quote_chars r
  end.

Definition quote (s : string) : string :=
  String DQUOTE (quote_chars s +:+ String DQUOTE EmptyString).

Fixpoint zeros (n : nat) : string :=
  match n with
  | O => EmptyString
  | S n' => String "0"%char (zeros n')
  end.

Definition string_of_N (n : N) : string := NilZero.string_of_uint (N.to_uint n).

(** [Number::toString] in radix 10, from the shortest digits [s] of the
    number, their count [k] and the position [n] of the decimal point. *)
Definition number_to_string (x : number) : string :=
  if (coeff x =? 0)%N then "0"
  else
    let s := string_of_N (coeff x) in
    let k := Z.of_nat (String.length s) in
    let n := k + expo x in
    let body :=
      if (-5 <=? n) && (n <=? 21) then
        if k <=? n then s +:+ zeros (Z.to_nat (n - k))
        else if 0 <? n then
          substring 0 (Z.to_nat n) s +:+ "." +:+ substring (Z.to_nat n) (Z.to_nat (k - n)) s
        else "0." +:+ zeros (Z.to_nat (- n)) +:+ s
      else
        let e := n - 1 in
        let tail := (if 0 <=? e then "e+" else "e-") +:+ string_of_N (Z.to_N (Z.abs e)) in
        if k =? 1 then s +:+ tail
        else substring 0 1 s +:+ "." +:+ substring 1 (Z.to_nat (k - 1)) s +:+ tail in
    if neg x then "-" +:+ body else body.

Fixpoint join (sep : string) (l : list string) : string :=
  match l with
  | [] => EmptyString
  | [x] => x
  | x :: r => x +:+ sep +:+ join sep r
  end.

(** [JSON.stringify v] without replacer or indentation. [None] is the
    [undefined] it returns for [undefined]; in an array that becomes
    [null], in an object the property is left out. *)
Fixpoint stringify (v : jsval) : option string :=
  match v with
  | JUndefined => None
  | JNull => Some "null"
  | JBool b => Some (if b then "true" else "false")
  | JNum x => Some (number_to_string x)
  | JStr s => Some (quote s)
  | JArr l =>
      Some ("[" +:+ join "," (map (fun e => default "null" (stringify e)) l) +:+ "]")
  | JObj ps =>
      let member :=
        fix member (ps : list (string * jsval)) : list string :=
          match ps with
          | [] => []
          | (k, e) :: r =>
              match stringify e with
              | Some t => (quote k +:+ ":" +:+ t) :: member r
              | None => member r
              end
          end in
      Some ("{" +:+ join "," (member ps) +:+ "}")
  end.

End JSON.

(** ** The page: storage, body classes, console *)

Inductive jserror :=
| ReferenceError (identifier : string)
| SyntaxError (text : string)
| TypeError (callee : string)
| SecurityError
| QuotaExceededError.

(** [window.localStorage] of the origin. Where the browser denies storage,
    reading the property itself throws [SecurityError] and nothing is stored;
    otherwise [setItem] throws [QuotaExceededError] when the items would
    outgrow the quota (counted in characters of keys and values). *)
Inductive Storage :=
| Available (items : gmap string string) (quota : nat)
| Denied.

Definition stored (st : Storage) (key : string) : option string :=
  match st with
  | Available items _ => items !! key
  | Denied => None
  end.

Definition storage_size (items : gmap string string) : nat :=
  map_fold (λ k v n, String.length k + String.length v + n)%nat 0%nat items.

Record World := {
  localStorage : Storage;
  classList : list string;      (* of [document.body] *)
  console : list jserror;       (* what [console.log] was given, oldest first *)
}.

Definition logged (e : jserror) (w : World) : World :=
  {| localStorage := localStorage w; classList := classList w;
     console := console w ++ [e] |}.

Definition with_classList (l : list string) (w : World) : World :=
  {| localStorage := localStorage w; classList := l; console := console w |}.

Definition with_localStorage (st : Storage) (w : World) : World :=
  {| localStorage := st; classList := classList w; console := console w |}.

(** ** Completions *)

Inductive completion (A : Type) :=
| Normal (a : A)
| Throw (e : jserror).
Arguments Normal {A} a.
Arguments Throw {A} e.

(** A piece of JavaScript run on the page: it changes the page and returns
    or throws. *)
Definition M (A : Type) : Type := World → completion A * World.

#[export] Instance M_ret : MRet M := λ A a w, (Normal a, w).
#[export] Instance M_bind : MBind M := λ A B f m w,
  match m w with
  | (Normal a, w') => f a w'
  | (Throw e, w') => (Throw e, w')
  end.

Definition throw {A} (e : jserror) : M A := λ w, (Throw e, w).

(** [try { body } catch (error) { handler }] *)
Definition try_catch {A} (body : M A) (handler : jserror → M A) : M A := λ w,
  match body w with
  | (Normal a, w') => (Normal a, w')
  | (Throw e, w') => handler e w'
  end.

Definition console_log (e : jserror) : M unit := λ w, (Normal tt, logged e w).

(** [window.localStorage.getItem(key)]: the item, or [null] ([None]). *)
Definition getItem (key : string) : M (option string) := λ w,
  match localStorage w with
  | Available items _ => (Normal (items !! key), w)
  | Denied => (Throw SecurityError, w)
  end.

(** [window.localStorage.setItem(key, value)] *)
Definition setItem (key value : string) : M unit := λ w,
  match localStorage w with
  | Available items quota =>
      let items' := <[key := value]> items in
      if (storage_size items' <=? quota)%nat
      then (Normal tt, with_localStorage (Available items' quota) w)
      else (Throw QuotaExceededError, w)
  | Denied => (Throw SecurityError, w)
  end.

(** [JSON.parse(item)] as a statement that can throw. *)
Definition JSON_parse (item : string) : M jsval :=
  match JSON.parse item with
  | Some v => mret v
  | None => throw (SyntaxError item)
  end.

(** The string a storage method receives for [JSON.stringify(v)]: the
    argument is converted with [ToString], and [undefined] reads
    ["undefined"]. *)
Definition JSON_stringify (v : jsval) : string :=
  default "undefined" (JSON.stringify v).

(** [DOMTokenList]: an ordered set of class names. *)
Definition classList_contains (c : string) (l : list string) : bool :=
  bool_decide (c ∈ l).
Definition classList_add (c : string) (l : list string) : list string :=
  if classList_contains c l then l else l ++ [c].
Definition classList_remove (c : string) (l : list string) : list string :=
  filter (λ x, x ≠ c) l.

Definition body_classList_add (c : string) : M unit := λ w,
  (Normal tt, with_classList (classList_add c (classList w)) w).
Definition body_classList_remove (c : string) : M unit := λ w,
  (Normal tt, with_classList (classList_remove c (classList w)) w).

(** ** Identifiers *)

(** The data bindings a closure can see, innermost first. *)
Definition scope := list (string * jsval).

Fixpoint resolve (sc : scope) (x : string) : option jsval :=
  match sc with
  | [] => None
  | (y, v) :: r => if bool_decide (y = x) then Some v else resolve r x
  end.

(** [typeof x]: an identifier that resolves to nothing is ["undefined"], and
    no error. *)
Definition typeof_identifier (sc : scope) (x : string) : string :=
  match resolve sc x with
  | Some v => typeof v
  | None => "undefined"
  end.

(** Reading [x]: an identifier that resolves to nothing is a
    [ReferenceError]. *)
Definition get_value (sc : scope) (x : string) : M jsval :=
  match resolve sc x with
  | Some v => mret v
  | None => throw (ReferenceError x)
  end.

(** [f(args)] for an identifier [f]: none of the values of [jsval] is
    callable. *)
Definition call_identifier (sc : scope) (f : string) (args : list jsval) : M jsval :=
  _ ← get_value sc f; throw (TypeError f).

(** ** React hooks *)

(** A custom hook built on one [useState] cell: how the cell is initialised
    when the component mounts, and the effects, in the order of the
    [useEffect] calls, as a function of the state they all depend on.  The
    hook returns the pair of the state and its setter. *)
Record Hook := {
  initial_state : M jsval;
  effects : jsval → M unit;
}.

(** Mounting: the initialiser gives the first state, the component renders,
    and every effect runs once. *)
Definition mount (h : Hook) : M jsval :=
  value ← initial_state h;
  effects h value;;
  mret value.

(** The setter with what React does next: a value that is the same as the
    state is dropped; another one becomes the state, the component renders
    again, and the effects run, their dependency having changed. *)
Definition set_state (h : Hook) (m current : jsval) : M jsval :=
  if Object_is m current then mret current
  else effects h m;; mret m.

(** ** useLocalStorage *)

(** The initialiser handed to [useState]. [item ? ... : ...] takes the second
    branch for [null] and for the empty string. *)
Definition useLocalStorage_initial (key : string) (initialValue : jsval) : M jsval :=
  try_catch
    (item ← getItem key;
     match item with
     | Some (String _ _ as text) => JSON_parse text
     | _ => mret initialValue
     end)
    (λ error, console_log error;; mret initialValue).

(** The data bindings in reach of the effect of [useLocalStorage]. The other
    names it can see are functions ([setValue], [useState], [useEffect]) and
    the platform's objects ([window], [JSON], [console]); nothing declares
    [storedValue]. *)
Definition effect_scope (key : string) (initialValue value : jsval) : scope :=
  [("value", value); ("initialValue", initialValue); ("key", JStr key)].

(** The body of the effect, in a given scope. *)
Definition persist (sc : scope) (key : string) : M unit :=
  try_catch
    (valueToStore ←
       (if bool_decide (typeof_identifier sc "storedValue" = "function")
        then stored_value ← get_value sc "storedValue";
             call_identifier sc "storedValue" [stored_value]
        else get_value sc "storedValue");
     setItem key (JSON_stringify valueToStore))
    (λ error, console_log error).

(** The effect with dependencies [[key, value]]; the key never changes. *)
Definition useLocalStorage_effect (key : string) (initialValue value : jsval) : M unit :=
  persist (effect_scope key initialValue value) key.

Definition useLocalStorage (key : string) (initialValue : jsval) : Hook :=
  {| initial_state := useLocalStorage_initial key initialValue;
     effects := useLocalStorage_effect key initialValue |}.

(** ** useColorMode *)

Definition color_mode_key : string := "color-mode".
Definition default_mode : jsval := JStr "dark".

(** The effect with dependencies [[colorMode]]. *)
Definition useColorMode_effect (colorMode : jsval) : M unit :=
  let classname := "dark" in
  if strict_eq_str colorMode "dark"
  then body_classList_add classname
  else body_classList_remove classname.

Definition useColorMode : Hook :=
  let storage_hook := useLocalStorage color_mode_key default_mode in
  {| initial_state := initial_state storage_hook;
     effects := λ colorMode, effects storage_hook colorMode;;
                             useColorMode_effect colorMode |}.

(** ** A component that calls useColorMode *)

(** What React keeps for the component between renders, and the page. *)
Record Session := { colorMode : jsval; page : World }.

Definition session (r : completion jsval * World) : completion Session :=
  match r with
  | (Normal v, w) => Normal {| colorMode := v; page := w |}
  | (Throw e, _) => Throw e
  end.

Definition load (w : World) : completion Session := session (mount useColorMode w).

Definition setColorMode (m current : jsval) : M jsval := set_state useColorMode m current.

Definition setMode (m : jsval) (s : Session) : completion Session :=
  session (setColorMode m (colorMode s) (page s)).

Definition getCurrentMode (s : Session) : jsval := colorMode s.

Definition has_marker (s : Session) : bool :=
  classList_contains "dark" (classList (page s)).

(** The sessions a page can be in: loaded, then any number of [setMode].
    Nothing else on the page touches the body classes or the storage. *)
Inductive reachable : Session → Prop :=
| reachable_load w s : load w = Normal s → reachable s
| reachable_setMode m s s' : reachable s → setMode m s = Normal s' → reachable s'.

(** ** The page as served, and a reload *)

(** [RootLayout] renders the body with the classes [dark] and the font's
    variable class. *)
Definition RootLayout_body_classes (font_variable : string) : list string :=
  ["dark"; font_variable].

Definition served (font_variable : string) (st : Storage) : World :=
  {| localStorage := st;
     classList := RootLayout_body_classes font_variable;
     console := [] |}.

(** A reload serves the page again; of the old page only the storage stays. *)
Definition reload (font_variable : string) (s : Session) : World :=
  served font_variable (localStorage (page s)).

(** ** The dark-mode switch *)

Inductive icon :=
| InlineSvg (width height : nat) (path_d : string)
| Image (src : string) (width height : nat).

Definition moon_path : string :=
  "M19.513 11.397a.701.701 0 00-.588.128 7.496 7.496 0 01-2.276 1.336 7.101 7.101 0 01-2.583.462 7.505 7.505 0 01-5.32-2.209 7.568 7.568 0 01-2.199-5.342c0-.873.154-1.72.41-2.49a6.904 6.904 0 011.227-2.21.657.657 0 00-.102-.924.701.701 0 00-.589-.128C5.32.61 3.427 1.92 2.072 3.666A10.158 10.158 0 000 9.83c0 2.8 1.125 5.342 2.967 7.19a10.025 10.025 0 007.16 2.98c2.353 0 4.527-.822 6.266-2.183a10.13 10.13 0 003.58-5.624.623.623 0 00-.46-.796z".

Definition sun_icon : icon := Image "/assets/icon-sun.svg" 20 20.

Record ButtonView := { label : string; glyph : icon }.

(** The children of the button. *)
Definition Button_render (colorMode : jsval) : ButtonView :=
  {| label := if strict_eq_str colorMode "light" then "DARK" else "LIGHT";
     glyph := if strict_eq_str colorMode "light"
              then InlineSvg 20 20 moon_path
              else sun_icon |}.

(** The argument [onPress] hands to [setColorMode]. *)
Definition Button_onPress_argument (colorMode : jsval) : jsval :=
  JStr (if strict_eq_str colorMode "light" then "dark" else "light").

Definition Button_onPress (s : Session) : completion Session :=
  setMode (Button_onPress_argument (colorMode s)) s.

(** Whether [setItem key value] on this storage throws. *)
Definition setItem_fails (key value : string) (st : Storage) : bool :=
  match st with
  | Available items quota => negb (storage_size (<[key := value]> items) <=? quota)%nat
  | Denied => true
  end.

(** ** Definitions used in the statements *)

(** What the effect of [useColorMode] makes of the body classes. *)
Definition class_sync (m : jsval) (l : list string) : list string :=
  if strict_eq_str m "dark" then classList_add "dark" l else classList_remove "dark" l.

(** What one run of both effects leaves of the page. *)
Definition after_effects (m : jsval) (w : World) : World :=
  with_classList (class_sync m (classList w)) (logged (ReferenceError "storedValue") w).

(** The body class follows the state. *)
Definition in_sync (s : Session) : Prop :=
  has_marker s = strict_eq_str (colorMode s) "dark".

(** The page of a first visit, loaded. *)
Definition first_visit : Session :=
  {| colorMode := JStr "dark";
     page := {| localStorage := Available ∅ 5000;
                classList := ["dark"; "font"];
                console := [ReferenceError "storedValue"] |} |}.

(** A page loaded where the browser denies storage. *)
Definition no_storage : Session :=
  {| colorMode := JStr "dark";
     page := {| localStorage := Denied;
                classList := ["dark"; "font"];
                console := [SecurityError; ReferenceError "storedValue"] |} |}.

(** ** Runs of a session *)

(** The calls [setMode m] for the [m] of a list, one after the other. *)
Fixpoint setModes (ms : list jsval) (s : Session) : completion Session :=
  match ms with
  | [] => Normal s
  | m :: rest =>
      match setMode m s with
      | Normal s' => setModes rest s'
      | Throw e => Throw e
      end
  end.

(** The body classes other than the marker. *)
Definition other_classes (s : Session) : list string :=
  classList_remove "dark" (classList (page s)).

(** A page loaded with the JSON text of ["blue"] stored as the mode. *)
Definition blue_visit : Session :=
  {| colorMode := JStr "blue";
     page := {| localStorage :=
                  Available {[ "color-mode" := JSON_stringify (JStr "blue") ]} 5000;
                classList := ["font"];
                console := [ReferenceError "storedValue"] |} |}.

(** ** Definitions used for the parser's fuel *)

(** A parser leaves no more than it was given. *)
Definition shrinks {A} (p : string → option (A * string)) : Prop :=
  ∀ s a r, p s = Some (a, r) → (String.length r ≤ String.length s)%nat.

(** [p'] succeeds wherever [p] does, on the strings of length at most [n]. *)
Definition extends_upto {A} (n : nat) (p p' : string → option (A * string)) : Prop :=
  ∀ s x, (String.length s ≤ n)%nat → p s = Some x → p' s = Some x.

(** * Properties *)

(** ** JSON: the fuel of the parser *)

Lemma skip_ws_length s : (String.length (JSON.skip_ws s) ≤ String.length s)%nat.
Proof.
  induction s as [| c r IH]; simpl; [lia |].
  destruct (JSON.is_ws c); simpl; lia.
Qed.

Lemma closes_length close s r :
  JSON.closes close s = Some r → (String.length r < String.length s)%nat.
Proof.
  unfold JSON.closes. pose proof (skip_ws_length s) as Hl.
  destruct (JSON.skip_ws s) as [| c r']; [done |].
  destruct (Ascii.eqb c close); [| done]. intros [= <-]. simpl in Hl. lia.
Qed.

Lemma parse_chars_length_le n s body rest :
  (String.length s ≤ n)%nat →
  JSON.parse_chars s = Some (body, rest) →
  (String.length rest < String.length s)%nat.
Proof.
  revert s body rest. induction n as [| n IH]; intros s body rest Hn.
  - destruct s; [done | simpl in Hn; lia].
  - destruct s as [| c r]; [done |]. simpl in Hn. simpl.
    destruct (Ascii.eqb c JSON.DQUOTE); [intros [= _ <-]; lia |].
    destruct (Ascii.eqb c JSON.BACKSLASH).
    + destruct r as [| e r']; [done |]. simpl in Hn.
      destruct (Ascii.eqb e "u").
      * destruct r' as [| h1 [| h2 [| h3 [| h4 r'']]]]; try done. simpl in Hn.
        destruct (JSON.hex4 h1 h2 h3 h4); [| done].
        destruct (JSON.parse_chars r'') as [[b t] |] eqn:E; [| done].
        intros [= _ <-]. apply IH in E; [simpl; lia | lia].
      * destruct (JSON.simple_escape e); [| done].
        destruct (JSON.parse_chars r') as [[b t] |] eqn:E; [| done].
        intros [= _ <-]. apply IH in E; [simpl; lia | lia].
    + destruct (JSON.code c <? 32)%N; [done |].
      destruct (JSON.parse_chars r) as [[b t] |] eqn:E; [| done].
      intros [= _ <-]. apply IH in E; [lia | lia].
Qed.

Lemma parse_chars_length s body rest :
  JSON.parse_chars s = Some (body, rest) →
  (String.length rest < String.length s)%nat.
Proof. by apply (parse_chars_length_le (String.length s)). Qed.

Lemma span_digits_length s : (String.length (JSON.span_digits s).2 ≤ String.length s)%nat.
Proof.
  induction s as [| c r IH]; simpl; [lia |].
  destruct (JSON.is_digit c); [| simpl; lia].
  destruct (JSON.span_digits r) as [ds rest]. simpl in *. lia.
Qed.

Lemma optional_length c s : (String.length (JSON.optional c s).2 ≤ String.length s)%nat.
Proof.
  destruct s as [| a r]; simpl; [lia |]. destruct (Ascii.eqb a c); simpl; lia.
Qed.

Lemma parse_number_length s x rest :
  JSON.parse_number s = Some (x, rest) → (String.length rest ≤ String.length s)%nat.
Proof.
  unfold JSON.parse_number.
  pose proof (optional_length "-" s) as H1.
  destruct (JSON.optional "-" s) as [negative s1]. simpl in H1.
  destruct (JSON.parse_int s1) as [[ids s2] |] eqn:Ei; [| done].
  assert (H2 : (String.length s2 ≤ String.length s1)%nat).
  { unfold JSON.parse_int in Ei. destruct s1 as [| c r]; [done |].
    destruct (Ascii.eqb c "0"); [injection Ei as _ <-; simpl; lia |].
    pose proof (span_digits_length (String c r)) as Hs.
    remember (JSON.span_digits (String c r)) as sd eqn:Hsd. clear Hsd.
    destruct (JSON.is_digit c); [| done]. by injection Ei as ->. }
  destruct (JSON.parse_frac s2) as [[fds s3] |] eqn:Ef; [| done].
  assert (H3 : (String.length s3 ≤ String.length s2)%nat).
  { unfold JSON.parse_frac in Ef. pose proof (optional_length "." s2) as Ho.
    destruct (JSON.optional "." s2) as [[] r]; simpl in Ho.
    - pose proof (span_digits_length r) as Hs.
      destruct (JSON.span_digits r) as [[| d ds] t]; [done |].
      injection Ef as _ <-. simpl in Hs. lia.
    - injection Ef as _ <-. lia. }
  destruct (JSON.parse_exp s3) as [[e s4] |] eqn:Ee; [| done].
  assert (H4 : (String.length s4 ≤ String.length s3)%nat).
  { unfold JSON.parse_exp in Ee. destruct s3 as [| c r]; [by injection Ee as _ <- |].
    destruct (Ascii.eqb c "e" || Ascii.eqb c "E"); [| by injection Ee as _ <-].
    pose proof (optional_length "-" r) as Ho1.
    destruct (JSON.optional "-" r) as [minus r1]. simpl in Ho1.
    assert (Ho2 : ∀ r2, (if minus then (false, r1) else JSON.optional "+" r1).2 = r2 →
                        (String.length r2 ≤ String.length r1)%nat).
    { intros r2 <-. destruct minus; [simpl; lia | apply optional_length]. }
    destruct (if minus then (false, r1) else JSON.optional "+" r1) as [b r2].
    specialize (Ho2 r2 eq_refl).
    pose proof (span_digits_length r2) as Hs.
    destruct (JSON.span_digits r2) as [[| d ds] t]; [done |].
    injection Ee as _ <-. simpl in *. lia. }
  intros [= _ <-]. lia.
Qed.

Lemma strip_prefix_length p s r :
  JSON.strip_prefix p s = Some r → (String.length r ≤ String.length s)%nat.
Proof.
  revert s. induction p as [| a p IH]; intros s; simpl.
  - intros [= <-]. lia.
  - destruct s as [| b s']; [done |]. destruct (Ascii.eqb a b); [| done].
    intros H. apply IH in H. simpl. lia.
Qed.

Lemma literal_length w v s v' r :
  JSON.literal w v s = Some (v', r) → (String.length r ≤ String.length s)%nat.
Proof.
  unfold JSON.literal. destruct (JSON.strip_prefix w s) eqn:E; [| done].
  intros [= _ <-]. by apply strip_prefix_length in E.
Qed.

Section Bodies.

Context (pv pv' : string → option (jsval * string)).
Context (pe pe' : string → option (list jsval * string)).
Context (pm pm' : string → option (list (string * jsval) * string)).

Lemma value_with_shrinks : shrinks pe → shrinks pm → shrinks (JSON.value_with pe pm).
Proof.
  intros He Hm s v rest. unfold JSON.value_with.
  pose proof (skip_ws_length s) as Hs.
  destruct (JSON.skip_ws s) as [| c r]; [done |]. simpl in Hs.
  repeat match goal with |- context [if Ascii.eqb c ?x then _ else _] =>
    destruct (Ascii.eqb c x) end.
  - intros H. apply literal_length in H. lia.
  - intros H. apply literal_length in H. lia.
  - intros H. apply literal_length in H. lia.
  - destruct (JSON.parse_chars r) as [[b t] |] eqn:E; [| done].
    intros [= _ <-]. apply parse_chars_length in E. lia.
  - destruct (JSON.closes "]" r) as [r' |] eqn:E.
    + intros [= _ <-]. apply closes_length in E. lia.
    + destruct (pe r) as [[vs t] |] eqn:E'; [| done].
      intros [= _ <-]. apply He in E'. lia.
  - destruct (JSON.closes "}" r) as [r' |] eqn:E.
    + intros [= _ <-]. apply closes_length in E. lia.
    + destruct (pm r) as [[ms t] |] eqn:E'; [| done].
      intros [= _ <-]. apply Hm in E'. lia.
  - destruct (JSON.parse_number (String c r)) as [[x t] |] eqn:E; [| done].
    intros [= _ <-]. apply parse_number_length in E. simpl in E. lia.
Qed.

Lemma elements_with_shrinks : shrinks pv → shrinks pe → shrinks (JSON.elements_with pv pe).
Proof.
  intros Hv He s vs rest. unfold JSON.elements_with.
  destruct (pv s) as [[v r] |] eqn:E; [| done]. apply Hv in E.
  pose proof (skip_ws_length r) as Hs.
  destruct (JSON.skip_ws r) as [| c r']; [done |]. simpl in Hs.
  destruct (Ascii.eqb c ",").
  - destruct (pe r') as [[vs' t] |] eqn:E'; [| done].
    intros [= _ <-]. apply He in E'. lia.
  - destruct (Ascii.eqb c "]"); [| done]. intros [= _ <-]. lia.
Qed.

Lemma members_with_shrinks : shrinks pv → shrinks pm → shrinks (JSON.members_with pv pm).
Proof.
  intros Hv Hm s ms rest. unfold JSON.members_with.
  pose proof (skip_ws_length s) as Hs.
  destruct (JSON.skip_ws s) as [| c r]; [done |]. simpl in Hs.
  destruct (Ascii.eqb c JSON.DQUOTE); [| done].
  destruct (JSON.parse_chars r) as [[k r1] |] eqn:Ek; [| done].
  apply parse_chars_length in Ek.
  pose proof (skip_ws_length r1) as Hs1.
  destruct (JSON.skip_ws r1) as [| c1 r2]; [done |]. simpl in Hs1.
  destruct (Ascii.eqb c1 ":"); [| done].
  destruct (pv r2) as [[v r3] |] eqn:Ev; [| done]. apply Hv in Ev.
  pose proof (skip_ws_length r3) as Hs3.
  destruct (JSON.skip_ws r3) as [| c3 r4]; [done |]. simpl in Hs3.
  destruct (Ascii.eqb c3 ",").
  - destruct (pm r4) as [[ms' t] |] eqn:E'; [| done].
    intros [= _ <-]. apply Hm in E'. lia.
  - destruct (Ascii.eqb c3 "}"); [| done]. intros [= _ <-]. lia.
Qed.

(** Each body succeeds with better parsers where it did with the given ones;
    the parsers it calls get shorter strings, but for the value an element
    list starts with. *)
Lemma value_with_extends n :
  extends_upto n pe pe' → extends_upto n pm pm' →
  extends_upto (S n) (JSON.value_with pe pm) (JSON.value_with pe' pm').
Proof.
  intros He Hm s x Hn. unfold JSON.value_with.
  pose proof (skip_ws_length s) as Hs.
  destruct (JSON.skip_ws s) as [| c r]; [done |]. simpl in Hs.
  repeat match goal with |- context [if Ascii.eqb c ?x then _ else _] =>
    destruct (Ascii.eqb c x) end; try done.
  - destruct (JSON.closes "]" r) as [r' |]; [done |].
    destruct (pe r) as [[vs t] |] eqn:E; [| done].
    rewrite (He r _ ltac:(lia) E). done.
  - destruct (JSON.closes "}" r) as [r' |]; [done |].
    destruct (pm r) as [[ms t] |] eqn:E; [| done].
    rewrite (Hm r _ ltac:(lia) E). done.
Qed.

Lemma elements_with_extends n :
  shrinks pv →
  extends_upto (S n) pv pv' → extends_upto n pe pe' →
  extends_upto (S n) (JSON.elements_with pv pe) (JSON.elements_with pv' pe').
Proof.
  intros Hsh Hv He s x Hn. unfold JSON.elements_with.
  destruct (pv s) as [[v r] |] eqn:E; [| done].
  rewrite (Hv s _ Hn E). apply Hsh in E.
  pose proof (skip_ws_length r) as Hs.
  destruct (JSON.skip_ws r) as [| c r']; [done |]. simpl in Hs.
  destruct (Ascii.eqb c ","); [| done].
  destruct (pe r') as [[vs t] |] eqn:E'; [| done].
  rewrite (He r' _ ltac:(lia) E'). done.
Qed.

Lemma members_with_extends n :
  shrinks pv →
  extends_upto n pv pv' → extends_upto n pm pm' →
  extends_upto (S n) (JSON.members_with pv pm) (JSON.members_with pv' pm').
Proof.
  intros Hsh Hv Hm s x Hn. unfold JSON.members_with.
  pose proof (skip_ws_length s) as Hs.
  destruct (JSON.skip_ws s) as [| c r]; [done |]. simpl in Hs.
  destruct (Ascii.eqb c JSON.DQUOTE); [| done].
  destruct (JSON.parse_chars r) as [[k r1] |] eqn:Ek; [| done].
  apply parse_chars_length in Ek.
  pose proof (skip_ws_length r1) as Hs1.
  destruct (JSON.skip_ws r1) as [| c1 r2]; [done |]. simpl in Hs1.
  destruct (Ascii.eqb c1 ":"); [| done].
  destruct (pv r2) as [[v r3] |] eqn:Ev; [| done].
  rewrite (Hv r2 _ ltac:(lia) Ev). apply Hsh in Ev.
  pose proof (skip_ws_length r3) as Hs3.
  destruct (JSON.skip_ws r3) as [| c3 r4]; [done |]. simpl in Hs3.
  destruct (Ascii.eqb c3 ","); [| done].
  destruct (pm r4) as [[ms' t] |] eqn:E'; [| done].
  rewrite (Hm r4 _ ltac:(lia) E'). done.
Qed.

End Bodies.

Lemma parse_shrinks fuel :
  shrinks (JSON.parse_value fuel) ∧ shrinks (JSON.parse_elements fuel)
  ∧ shrinks (JSON.parse_members fuel).
Proof.
  induction fuel as [| fuel (Hv & He & Hm)]; [by repeat split |].
  split; [| split]; simpl.
  - by apply value_with_shrinks.
  - by apply elements_with_shrinks.
  - by apply members_with_shrinks.
Qed.

Lemma parse_nothing fuel :
  JSON.parse_value fuel EmptyString = None
  ∧ JSON.parse_elements fuel EmptyString = None
  ∧ JSON.parse_members fuel EmptyString = None.
Proof.
  induction fuel as [| fuel (Hv & He & Hm)]; [done |].
  split; [done |]. split; [| done].
  simpl. unfold JSON.elements_with. by rewrite Hv.
Qed.

(** What succeeds with some fuel succeeds with any fuel above twice the
    length of the text. *)
Lemma parse_fuel_bound n :
  ∀ fuel m,
    ((2 * n + 1 ≤ m)%nat → extends_upto n (JSON.parse_value fuel) (JSON.parse_value m))
    ∧ ((2 * n + 2 ≤ m)%nat →
         extends_upto n (JSON.parse_elements fuel) (JSON.parse_elements m))
    ∧ ((2 * n + 2 ≤ m)%nat →
         extends_upto n (JSON.parse_members fuel) (JSON.parse_members m)).
Proof.
  induction n as [| n IH]; intros fuel m.
  - destruct (parse_nothing fuel) as (Hv & He & Hm).
    repeat split; intros _ s x Hs; destruct s; simpl in Hs; try lia; congruence.
  - assert (Hvalue : ∀ fuel m, (2 * S n + 1 ≤ m)%nat →
              extends_upto (S n) (JSON.parse_value fuel) (JSON.parse_value m)).
    { clear fuel m. intros fuel m Hm. destruct m as [| m]; [lia |].
      destruct fuel as [| fuel]; [by intros s x _ |]. simpl.
      apply value_with_extends; apply IH; lia. }
    split; [apply Hvalue |].
    split; intros Hm; (destruct m as [| m]; [lia |]);
      (destruct fuel as [| fuel]; [by intros s x _ |]);
      destruct (parse_shrinks fuel) as (Hshv & _ & _); simpl.
    + apply elements_with_extends; [done | apply Hvalue; lia | apply IH; lia].
    + apply members_with_extends; [done | |].
      * intros s x Hs. apply Hvalue; [lia | lia].
      * apply IH; lia.
Qed.

(** The fuel [JSON.parse] gives is enough: more of it changes nothing. *)
Lemma parse_value_fuel text fuel :
  (2 * String.length text + 2 ≤ fuel)%nat →
  JSON.parse_value fuel text = JSON.parse_value (2 * String.length text + 2) text.
Proof.
  intros Hf. set (enough := (2 * String.length text + 2)%nat) in *.
  pose proof (proj1 (parse_fuel_bound (String.length text) fuel enough)) as Hup.
  pose proof (proj1 (parse_fuel_bound (String.length text) enough fuel)) as Hdown.
  destruct (JSON.parse_value fuel text) as [x |] eqn:E1.
  - symmetry. apply (Hup ltac:(lia) text x); [lia | done].
  - destruct (JSON.parse_value enough text) as [x |] eqn:E2; [| done].
    apply (Hdown ltac:(lia) text x) in E2; [congruence | lia].
Qed.

(** ** JSON: strings come back *)

Lemma parse_chars_quote_chars s rest :
  JSON.parse_chars (JSON.quote_chars s +:+ String JSON.DQUOTE rest) = Some (s, rest).
Proof.
  induction s as [| c r IH]; [reflexivity |].
  destruct c as [[] [] [] [] [] [] [] []]; simpl;
    change (EmptyString +:+ JSON.quote_chars r) with (JSON.quote_chars r);
    rewrite IH; reflexivity.
Qed.

Lemma parse_quote s : JSON.parse (JSON.quote s) = Some (JStr s).
Proof.
  unfold JSON.parse, JSON.quote.
  rewrite Nat.add_succ_r. simpl. unfold JSON.value_with. simpl.
  by rewrite parse_chars_quote_chars.
Qed.

Lemma parse_stringify_string s : JSON.parse (JSON_stringify (JStr s)) = Some (JStr s).
Proof. apply parse_quote. Qed.


(** ** The platform *)

Lemma Object_is_eq a b : Object_is a b = true → a = b.
Proof.
  destruct a, b; simpl; try discriminate; try reflexivity.
  - intros H. apply Bool.eqb_prop in H. by subst.
  - destruct x as [n1 c1 e1], x0 as [n2 c2 e2]. unfold number_eqb. simpl.
    rewrite !andb_true_iff. intros [[Hn Hc] He].
    apply Bool.eqb_prop in Hn. apply N.eqb_eq in Hc. apply Z.eqb_eq in He.
    by subst.
  - intros H. apply bool_decide_eq_true in H. by subst.
Qed.

Lemma strict_eq_str_true v s : strict_eq_str v s = true ↔ v = JStr s.
Proof.
  destruct v; simpl; try (split; [discriminate | intros [=]]).
  rewrite bool_decide_eq_true. split; [by intros -> | by intros [= ->]].
Qed.

Lemma strict_eq_str_false v s : strict_eq_str v s = false ↔ v ≠ JStr s.
Proof.
  rewrite <- not_true_iff_false, strict_eq_str_true. done.
Qed.

Lemma classList_contains_true c l : classList_contains c l = true ↔ c ∈ l.
Proof. apply bool_decide_eq_true. Qed.

Lemma classList_contains_add c l : classList_contains c (classList_add c l) = true.
Proof.
  unfold classList_add. destruct (classList_contains c l) eqn:E; [done |].
  apply classList_contains_true. set_solver.
Qed.

Lemma classList_contains_remove c l :
  classList_contains c (classList_remove c l) = false.
Proof.
  apply bool_decide_eq_false. unfold classList_remove.
  rewrite list_elem_of_filter. tauto.
Qed.

Lemma classList_add_present c l : classList_contains c l = true → classList_add c l = l.
Proof. unfold classList_add. by intros ->. Qed.

Lemma classList_remove_absent c l :
  classList_contains c l = false → classList_remove c l = l.
Proof.
  intros H. apply bool_decide_eq_false in H. unfold classList_remove.
  induction l as [| x l IH]; [done |].
  rewrite filter_cons. destruct (decide (x ≠ c)) as [Hx | Hx].
  - f_equal. apply IH. set_solver.
  - exfalso. apply H. apply dec_stable in Hx. set_solver.
Qed.

Lemma setItem_fails_throws key value w :
  setItem_fails key value (localStorage w) = true →
  ∃ e, setItem key value w = (Throw e, w).
Proof.
  unfold setItem_fails, setItem. destruct (localStorage w) as [items quota |].
  - intros H. apply negb_true_iff in H. rewrite H. eauto.
  - eauto.
Qed.

Lemma JSON_parse_empty : JSON.parse EmptyString = None.
Proof. reflexivity. Qed.

Lemma storage_size_insert key value items :
  storage_size (<[key := value]> items)
  = (String.length key + String.length value + storage_size (delete key items))%nat.
Proof.
  rewrite <- insert_delete_eq. unfold storage_size.
  rewrite map_fold_insert_L; [done | intros; lia | apply lookup_delete_eq].
Qed.

(** A write that alone is larger than the quota is rejected. *)
Lemma setItem_over_quota key value items quota :
  (quota < String.length key + String.length value)%nat →
  setItem_fails key value (Available items quota) = true.
Proof.
  intros H. unfold setItem_fails. rewrite storage_size_insert.
  apply negb_true_iff, Nat.leb_gt. lia.
Qed.

Lemma setItem_no_quota value items :
  setItem_fails "color-mode" value (Available items 0) = true.
Proof. apply setItem_over_quota. simpl. lia. Qed.

(** ** useLocalStorage: the initialiser *)

Section Initial.
Variables (key : string) (initialValue : jsval).

Lemma initial_parsed w item v :
  stored (localStorage w) key = Some item →
  JSON.parse item = Some v →
  useLocalStorage_initial key initialValue w = (Normal v, w).
Proof.
  intros Hs Hp. unfold useLocalStorage_initial, try_catch, mbind, M_bind, getItem.
  destruct (localStorage w) as [items quota |]; simpl in Hs; [| done].
  rewrite Hs. destruct item as [| c r].
  - by rewrite JSON_parse_empty in Hp.
  - unfold JSON_parse. by rewrite Hp.
Qed.

Lemma initial_absent w items quota :
  localStorage w = Available items quota →
  items !! key = None →
  useLocalStorage_initial key initialValue w = (Normal initialValue, w).
Proof.
  intros Hw Hk. unfold useLocalStorage_initial, try_catch, mbind, M_bind, getItem.
  by rewrite Hw, Hk.
Qed.

Lemma initial_empty_item w :
  stored (localStorage w) key = Some EmptyString →
  useLocalStorage_initial key initialValue w = (Normal initialValue, w).
Proof.
  intros Hs. unfold useLocalStorage_initial, try_catch, mbind, M_bind, getItem.
  destruct (localStorage w) as [items quota |]; simpl in Hs; [| done].
  by rewrite Hs.
Qed.

Lemma initial_corrupt w item :
  stored (localStorage w) key = Some item →
  item ≠ EmptyString →
  JSON.parse item = None →
  useLocalStorage_initial key initialValue w
  = (Normal initialValue, logged (SyntaxError item) w).
Proof.
  intros Hs Hne Hp. unfold useLocalStorage_initial, try_catch, mbind, M_bind, getItem.
  destruct (localStorage w) as [items quota |]; simpl in Hs; [| done].
  rewrite Hs. destruct item as [| c r]; [done |].
  unfold JSON_parse. by rewrite Hp.
Qed.

Lemma initial_denied w :
  localStorage w = Denied →
  useLocalStorage_initial key initialValue w
  = (Normal initialValue, logged SecurityError w).
Proof.
  intros Hw. unfold useLocalStorage_initial, try_catch, mbind, M_bind, getItem.
  by rewrite Hw.
Qed.

(** The initialiser returns, and touches nothing but the console. *)
Lemma initial_returns w :
  ∃ v w', useLocalStorage_initial key initialValue w = (Normal v, w')
          ∧ localStorage w' = localStorage w ∧ classList w' = classList w.
Proof.
  destruct (localStorage w) as [items quota |] eqn:Hw.
  - destruct (items !! key) as [item |] eqn:Hk.
    + assert (Hs : stored (localStorage w) key = Some item) by by rewrite Hw.
      destruct (JSON.parse item) as [v |] eqn:Hp.
      * exists v, w. by rewrite (initial_parsed _ _ _ Hs Hp).
      * destruct (decide (item = EmptyString)) as [-> | Hne].
        -- exists initialValue, w. by rewrite (initial_empty_item _ Hs).
        -- exists initialValue, (logged (SyntaxError item) w).
           by rewrite (initial_corrupt _ _ Hs Hne Hp).
    + exists initialValue, w. by rewrite (initial_absent _ _ _ Hw Hk).
  - exists initialValue, (logged SecurityError w).
    by rewrite (initial_denied _ Hw).
Qed.

End Initial.

(** ** useLocalStorage: the effect *)

Lemma typeof_not_function v : typeof v ≠ "function".
Proof. by destruct v. Qed.

Lemma effect_scope_storedValue key initialValue value :
  resolve (effect_scope key initialValue value) "storedValue" = None.
Proof. reflexivity. Qed.

(** In a scope that binds [storedValue], the effect writes that binding;
    a write that throws is caught and logged. *)
Lemma persist_bound sc key v w :
  resolve sc "storedValue" = Some v →
  persist sc key w
  = match setItem key (JSON_stringify v) w with
    | (Normal _, w') => (Normal tt, w')
    | (Throw e, w') => (Normal tt, logged e w')
    end.
Proof.
  intros Hr. unfold persist, try_catch, typeof_identifier, get_value. rewrite Hr.
  rewrite bool_decide_eq_false_2 by apply typeof_not_function.
  unfold mbind, M_bind, mret, M_ret.
  destruct (setItem key (JSON_stringify v) w) as [[[] | e] w']; reflexivity.
Qed.

Lemma persist_swallows_write_failure sc key v w :
  resolve sc "storedValue" = Some v →
  setItem_fails key (JSON_stringify v) (localStorage w) = true →
  ∃ e, persist sc key w = (Normal tt, logged e w).
Proof.
  intros Hr Hf. destruct (setItem_fails_throws _ _ _ Hf) as [e He].
  exists e. by rewrite (persist_bound _ _ _ _ Hr), He.
Qed.

(** What the effect writes for a string, the initialiser reads back. *)
Lemma persist_then_read sc key v initialValue w items quota :
  resolve sc "storedValue" = Some (JStr v) →
  localStorage w = Available items quota →
  (storage_size (<[key := JSON_stringify (JStr v)]> items) ≤ quota)%nat →
  ∃ w', persist sc key w = (Normal tt, w')
        ∧ stored (localStorage w') key = Some (JSON_stringify (JStr v))
        ∧ useLocalStorage_initial key initialValue w' = (Normal (JStr v), w').
Proof.
  intros Hr Hw Hq. rewrite (persist_bound _ _ _ _ Hr).
  unfold setItem. rewrite Hw. apply Nat.leb_le in Hq. rewrite Hq.
  eexists. split; [reflexivity |].
  assert (Hs : stored (localStorage (with_localStorage
                 (Available (<[key := JSON_stringify (JStr v)]> items) quota) w)) key
               = Some (JSON_stringify (JStr v))).
  { simpl. apply lookup_insert_eq. }
  split; [exact Hs |].
  exact (initial_parsed _ _ _ _ _ Hs (parse_stringify_string v)).
Qed.

(** In a scope without [storedValue], reading it throws before anything is
    written. *)
Lemma persist_unbound sc key w :
  resolve sc "storedValue" = None →
  persist sc key w = (Normal tt, logged (ReferenceError "storedValue") w).
Proof.
  intros Hr. unfold persist, try_catch, typeof_identifier, get_value. by rewrite Hr.
Qed.

Lemma useLocalStorage_effect_run key initialValue value w :
  useLocalStorage_effect key initialValue value w
  = (Normal tt, logged (ReferenceError "storedValue") w).
Proof. apply persist_unbound, effect_scope_storedValue. Qed.

(** ** useColorMode *)

Lemma useColorMode_effect_run m w :
  useColorMode_effect m w = (Normal tt, with_classList (class_sync m (classList w)) w).
Proof. unfold useColorMode_effect, class_sync. by destruct (strict_eq_str m "dark"). Qed.

Lemma class_sync_contains m l :
  classList_contains "dark" (class_sync m l) = strict_eq_str m "dark".
Proof.
  unfold class_sync. destruct (strict_eq_str m "dark").
  - apply classList_contains_add.
  - apply classList_contains_remove.
Qed.

Lemma class_sync_stable m l :
  classList_contains "dark" l = strict_eq_str m "dark" → class_sync m l = l.
Proof.
  unfold class_sync. destruct (strict_eq_str m "dark"); intros H.
  - by apply classList_add_present.
  - by apply classList_remove_absent.
Qed.

Lemma useColorMode_effects_run m w :
  effects useColorMode m w = (Normal tt, after_effects m w).
Proof.
  unfold useColorMode, useLocalStorage. cbn [effects]. unfold mbind, M_bind.
  by rewrite useLocalStorage_effect_run, useColorMode_effect_run.
Qed.

Lemma load_run w :
  ∃ v w0, useLocalStorage_initial color_mode_key default_mode w = (Normal v, w0)
          ∧ load w = Normal {| colorMode := v; page := after_effects v w0 |}.
Proof.
  destruct (initial_returns color_mode_key default_mode w) as (v & w0 & Hi & _ & _).
  exists v, w0. split; [done |].
  unfold load, mount, mbind, M_bind.
  change (initial_state useColorMode)
    with (useLocalStorage_initial color_mode_key default_mode).
  by rewrite Hi, useColorMode_effects_run.
Qed.

Lemma setMode_run m s :
  setMode m s
  = Normal (if Object_is m (colorMode s) then s
            else {| colorMode := m; page := after_effects m (page s) |}).
Proof.
  unfold setMode, setColorMode, set_state. destruct (Object_is m (colorMode s)).
  - by destruct s.
  - unfold mbind, M_bind. by rewrite useColorMode_effects_run.
Qed.

Lemma load_storage w s : load w = Normal s → localStorage (page s) = localStorage w.
Proof.
  destruct (initial_returns color_mode_key default_mode w) as (v & w0 & Hi & Hst & _).
  destruct (load_run w) as (v' & w0' & Hi' & ->). rewrite Hi in Hi'.
  injection Hi' as <- <-. by intros [= <-].
Qed.

Lemma setMode_storage m s s' :
  setMode m s = Normal s' → localStorage (page s') = localStorage (page s).
Proof.
  rewrite setMode_run. intros [= <-]. by destruct (Object_is m (colorMode s)).
Qed.

Lemma setMode_colorMode m s s' : setMode m s = Normal s' → colorMode s' = m.
Proof.
  rewrite setMode_run. intros [= <-].
  destruct (Object_is m (colorMode s)) eqn:E; [| done].
  symmetry. by apply Object_is_eq.
Qed.

Lemma reachable_in_sync s : reachable s → in_sync s.
Proof.
  induction 1 as [w s Hl | m s s' Hr IH Hs].
  - destruct (load_run w) as (v & w0 & _ & Hl'). rewrite Hl' in Hl.
    injection Hl as <-. apply class_sync_contains.
  - rewrite setMode_run in Hs. injection Hs as <-.
    destruct (Object_is m (colorMode s)); [done |]. apply class_sync_contains.
Qed.

Lemma load_default w :
  stored (localStorage w) color_mode_key = None →
  ∃ s, load w = Normal s ∧ colorMode s = default_mode.
Proof.
  intros Hs. destruct (load_run w) as (v & w0 & Hi & Hl).
  exists {| colorMode := v; page := after_effects v w0 |}. split; [done |]. simpl.
  destruct (localStorage w) as [items quota |] eqn:Hw.
  - rewrite (initial_absent _ _ _ _ _ Hw Hs) in Hi. by injection Hi as <- _.
  - rewrite (initial_denied _ _ _ Hw) in Hi. by injection Hi as <- _.
Qed.

Lemma load_stored w item v :
  stored (localStorage w) color_mode_key = Some item →
  JSON.parse item = Some v →
  load w = Normal {| colorMode := v; page := after_effects v w |}.
Proof.
  intros Hs Hp. destruct (load_run w) as (v' & w0 & Hi & ->).
  rewrite (initial_parsed _ _ _ _ _ Hs Hp) in Hi. by injection Hi as <- <-.
Qed.

Lemma first_visit_loaded : load (served "font" (Available ∅ 5000)) = Normal first_visit.
Proof. reflexivity. Qed.

Lemma no_storage_loaded : load (served "font" Denied) = Normal no_storage.
Proof. reflexivity. Qed.

(** ** Runs on concrete pages *)

(** A seeded item that is not JSON: the default is the mode, the
    [SyntaxError] is logged before the effect's [ReferenceError]. *)
Example corrupt_item_falls_back :
  load (served "font" (Available {[ "color-mode" := "light" ]} 5000))
  = Normal {| colorMode := JStr "dark";
              page := {| localStorage := Available {[ "color-mode" := "light" ]} 5000;
                         classList := ["dark"; "font"];
                         console := [SyntaxError "light";
                                     ReferenceError "storedValue"] |} |}.
Proof. reflexivity. Qed.

(** Pressing the switch on a first visit: light mode, the class is gone, the
    storage is still empty. *)
Example press_on_first_visit :
  Button_onPress first_visit
  = Normal {| colorMode := JStr "light";
              page := {| localStorage := Available ∅ 5000;
                         classList := ["font"];
                         console := [ReferenceError "storedValue";
                                     ReferenceError "storedValue"] |} |}.
Proof. reflexivity. Qed.

(** A mode that is neither ["light"] nor ["dark"], and one that is no
    string, take the class away. *)
Example class_sync_other_values :
  class_sync (JStr "blue") ["dark"; "font"] = ["font"]
  ∧ class_sync JNull ["dark"; "font"] = ["font"]
  ∧ class_sync (JStr "dark") ["font"] = ["font"; "dark"].
Proof. repeat split. Qed.

(** ** The statements *)

(** C1 (the code departs from it). Round trip: [setMode("light")] followed by
    a reload should give [getCurrentMode() == "light"].  On a first visit the
    effect of [useLocalStorage] reads the undeclared [storedValue], logs the
    [ReferenceError] and writes nothing: the mode is ["light"] in memory, and
    ["dark"] again after the reload. *)
Theorem roundtrip_light_lost (font : string) (quota : nat) :
  ∃ s1 s2 s3,
    load (served font (Available ∅ quota)) = Normal s1
    ∧ setMode (JStr "light") s1 = Normal s2
    ∧ getCurrentMode s2 = JStr "light"
    ∧ stored (localStorage (page s2)) color_mode_key = None
    ∧ load (reload font s2) = Normal s3
    ∧ getCurrentMode s3 = JStr "dark".
Proof.
  set (w := served font (Available ∅ quota)).
  assert (Hw : stored (localStorage w) color_mode_key = None) by done.
  destruct (load_default w Hw) as (s1 & Hl1 & Hc1).
  pose proof (load_storage _ _ Hl1) as Hst1.
  pose proof (setMode_run (JStr "light") s1) as Hs2.
  set (s2 := if Object_is (JStr "light") (colorMode s1) then s1
             else {| colorMode := JStr "light";
                     page := after_effects (JStr "light") (page s1) |}) in Hs2.
  pose proof (setMode_storage _ _ _ Hs2) as Hst2.
  assert (Hn : stored (localStorage (reload font s2)) color_mode_key = None).
  { simpl. by rewrite Hst2, Hst1. }
  destruct (load_default _ Hn) as (s3 & Hl3 & Hc3).
  exists s1, s2, s3.
  split; [exact Hl1 |]. split; [exact Hs2 |].
  split; [exact (setMode_colorMode _ _ _ Hs2) |].
  split; [by rewrite Hst2, Hst1 |].
  split; [exact Hl3 | exact Hc3].
Qed.

(** C2. Marker-class invariant: in every session the page reaches, the body
    has the class [dark] exactly when the mode is ["dark"]; [setMode m]
    returns, makes [m] the mode, and leaves the class present exactly when
    [m] is ["dark"]. *)
Theorem marker_class_invariant (s : Session) (m : jsval) :
  reachable s →
  (has_marker s = true ↔ getCurrentMode s = JStr "dark")
  ∧ ∃ s', setMode m s = Normal s'
          ∧ getCurrentMode s' = m
          ∧ (has_marker s' = true ↔ m = JStr "dark").
Proof.
  intros Hr. split.
  - rewrite (reachable_in_sync _ Hr). apply strict_eq_str_true.
  - destruct (setMode m s) as [s' | e] eqn:Hs; [| by rewrite setMode_run in Hs].
    exists s'. split; [done |].
    pose proof (setMode_colorMode _ _ _ Hs) as Hc. split; [done |].
    rewrite (reachable_in_sync s' (reachable_setMode _ _ _ Hr Hs)).
    unfold getCurrentMode in Hc. rewrite Hc. apply strict_eq_str_true.
Qed.

(** The invariant on the page of a first visit, switched to light. *)
Lemma marker_class_invariant_witness :
  reachable first_visit
  ∧ (has_marker first_visit = true ↔ getCurrentMode first_visit = JStr "dark")
  ∧ ∃ s', setMode (JStr "light") first_visit = Normal s'
          ∧ getCurrentMode s' = JStr "light"
          ∧ (has_marker s' = true ↔ JStr "light" = JStr "dark").
Proof.
  assert (Hr : reachable first_visit).
  { eapply reachable_load. exact first_visit_loaded. }
  split; [exact Hr |].
  exact (marker_class_invariant first_visit (JStr "light") Hr).
Defined.

(** C3 (as stated). The claim has the initialiser log a failure whenever it
    falls back: when nothing is stored, and when the stored item does not
    parse.  On a first visit nothing is stored under ["color-mode"]; on a
    page seeded with the empty string the item is one [JSON.parse] rejects.
    In both the initialiser returns the default and the console gets no
    entry. *)
Lemma read_fallbacks_without_log :
  let w := served "font" (Available ∅ 5000) in
  let w' := served "font" (Available {[ color_mode_key := EmptyString ]} 5000) in
  (stored (localStorage w) color_mode_key = None
   ∧ useLocalStorage_initial color_mode_key default_mode w = (Normal default_mode, w)
   ∧ ¬ ∃ e, console (snd (useLocalStorage_initial color_mode_key default_mode w))
            = console w ++ [e])
  ∧ (stored (localStorage w') color_mode_key = Some EmptyString
     ∧ JSON.parse EmptyString = None
     ∧ useLocalStorage_initial color_mode_key default_mode w' = (Normal default_mode, w')
     ∧ ¬ ∃ e, console (snd (useLocalStorage_initial color_mode_key default_mode w'))
              = console w' ++ [e]).
Proof.
  split.
  - split; [reflexivity |]. split; [reflexivity |].
    intros [e He]. simpl in He. discriminate He.
  - split; [reflexivity |]. split; [reflexivity |]. split; [reflexivity |].
    intros [e He]. simpl in He. discriminate He.
Qed.

(** C3 (amended). For every key, initial value and page, the initialiser of
    [useLocalStorage] returns and changes nothing but the console.  It
    returns the parsed item when an item is stored and parses; the initial
    value, with nothing logged, when no item is stored or the item is the
    empty string; the initial value, with the error logged, when the item
    does not parse or the storage cannot be read. *)
Theorem read_fallback (key : string) (initialValue : jsval) (w : World) :
  (∃ v w', useLocalStorage_initial key initialValue w = (Normal v, w')
           ∧ localStorage w' = localStorage w ∧ classList w' = classList w)
  ∧ (∀ item v, stored (localStorage w) key = Some item → JSON.parse item = Some v →
       useLocalStorage_initial key initialValue w = (Normal v, w))
  ∧ (∀ items quota, localStorage w = Available items quota → items !! key = None →
       useLocalStorage_initial key initialValue w = (Normal initialValue, w))
  ∧ (stored (localStorage w) key = Some EmptyString →
       useLocalStorage_initial key initialValue w = (Normal initialValue, w))
  ∧ (∀ item, stored (localStorage w) key = Some item → item ≠ EmptyString →
       JSON.parse item = None →
       useLocalStorage_initial key initialValue w
       = (Normal initialValue, logged (SyntaxError item) w))
  ∧ (localStorage w = Denied →
       useLocalStorage_initial key initialValue w
       = (Normal initialValue, logged SecurityError w)).
Proof.
  split; [apply initial_returns |].
  split; [intros item v; apply initial_parsed |].
  split; [intros items quota; apply initial_absent |].
  split; [apply initial_empty_item |].
  split; [intros item; apply initial_corrupt | apply initial_denied].
Qed.

(** The initialiser on a page that has ["light"] stored. *)
Lemma read_fallback_witness :
  let w := served "font" (Available {[ color_mode_key := JSON_stringify (JStr "light") ]} 5000) in
  stored (localStorage w) color_mode_key = Some (JSON_stringify (JStr "light"))
  ∧ JSON.parse (JSON_stringify (JStr "light")) = Some (JStr "light")
  ∧ useLocalStorage_initial color_mode_key default_mode w = (Normal (JStr "light"), w).
Proof.
  intros w.
  assert (Hs : stored (localStorage w) color_mode_key = Some (JSON_stringify (JStr "light")))
    by reflexivity.
  assert (Hp : JSON.parse (JSON_stringify (JStr "light")) = Some (JStr "light"))
    by reflexivity.
  split; [exact Hs |]. split; [exact Hp |].
  exact (proj1 (proj2 (read_fallback color_mode_key default_mode w)) _ _ Hs Hp).
Defined.

(** C4 (the code departs from it). Write failure: [setMode m] should not
    raise, with the failure of the write logged and swallowed and [m] the
    mode in memory.  On a first visit with no quota left, and on a page
    where the browser denies storage, every write under ["color-mode"]
    would fail; [setMode("light")] returns with ["light"] in memory, but the
    effect throws on the undeclared [storedValue] before it reaches
    [setItem]: the one entry the call adds to the console is that
    [ReferenceError], and no failure of the write is ever logged. *)
Theorem write_failure_never_logged (font : string) :
  (∃ s0 s1,
     load (served font (Available ∅ 0)) = Normal s0
     ∧ (∀ value, setItem_fails color_mode_key value (localStorage (page s0)) = true)
     ∧ setMode (JStr "light") s0 = Normal s1
     ∧ getCurrentMode s1 = JStr "light"
     ∧ localStorage (page s1) = Available ∅ 0
     ∧ console (page s1)
       = [ReferenceError "storedValue"; ReferenceError "storedValue"]
     ∧ QuotaExceededError ∉ console (page s1))
  ∧ (∃ s0 s1,
       load (served font Denied) = Normal s0
       ∧ (∀ value, setItem_fails color_mode_key value (localStorage (page s0)) = true)
       ∧ setMode (JStr "light") s0 = Normal s1
       ∧ getCurrentMode s1 = JStr "light"
       ∧ console (page s0) = [SecurityError; ReferenceError "storedValue"]
       ∧ console (page s1)
         = console (page s0) ++ [ReferenceError "storedValue"]).
Proof.
  split.
  - destruct (load_run (served font (Available ∅ 0))) as (v & w0 & Hi & Hl).
    rewrite (initial_absent color_mode_key default_mode
               (served font (Available ∅ 0)) ∅ 0 eq_refl (lookup_empty _)) in Hi.
    injection Hi as <- <-.
    eexists. eexists. split; [exact Hl |].
    split; [intros value; apply setItem_no_quota |].
    rewrite setMode_run. simpl.
    split; [reflexivity |]. split; [reflexivity |]. split; [reflexivity |].
    split; [reflexivity |].
    intros H. apply list_elem_of_In in H. simpl in H.
    destruct H as [H | [H | []]]; discriminate H.
  - destruct (load_run (served font Denied)) as (v & w0 & Hi & Hl).
    rewrite (initial_denied color_mode_key default_mode
               (served font Denied) eq_refl) in Hi.
    injection Hi as <- <-.
    eexists. eexists. split; [exact Hl |].
    split; [intros value; reflexivity |].
    rewrite setMode_run. simpl.
    split; [reflexivity |]. split; [reflexivity |]. split; reflexivity.
Qed.

(** C5. Default mode: when nothing is stored under ["color-mode"], loading
    the page returns and the current mode is ["dark"]. *)
Theorem default_mode_when_nothing_stored (w : World) :
  stored (localStorage w) color_mode_key = None →
  ∃ s, load w = Normal s ∧ getCurrentMode s = JStr "dark".
Proof. apply load_default. Qed.

(** The first visit has nothing stored. *)
Lemma default_mode_when_nothing_stored_witness :
  stored (localStorage (served "font" (Available ∅ 5000))) color_mode_key = None
  ∧ ∃ s, load (served "font" (Available ∅ 5000)) = Normal s
         ∧ getCurrentMode s = JStr "dark".
Proof.
  assert (H : stored (localStorage (served "font" (Available ∅ 5000))) color_mode_key = None)
    by reflexivity.
  split; [exact H |].
  exact (default_mode_when_nothing_stored (served "font" (Available ∅ 5000)) H).
Defined.

(** C6. Stored-value restore: when the item under ["color-mode"] is the
    JSON text of ["light"] or of ["dark"], loading the page returns and the
    current mode is that string. *)
Theorem stored_mode_restored (w : World) (v : string) :
  v = "light" ∨ v = "dark" →
  stored (localStorage w) color_mode_key = Some (JSON_stringify (JStr v)) →
  ∃ s, load w = Normal s ∧ getCurrentMode s = JStr v.
Proof.
  intros _ Hs. pose proof (parse_stringify_string v) as Hp.
  eexists. split; [exact (load_stored _ _ _ Hs Hp) | reflexivity].
Qed.

(** A page that has ["light"] stored. *)
Lemma stored_mode_restored_witness :
  let w := served "font" (Available {[ color_mode_key := JSON_stringify (JStr "light") ]} 5000) in
  ("light" = "light" ∨ "light" = "dark")
  ∧ stored (localStorage w) color_mode_key = Some (JSON_stringify (JStr "light"))
  ∧ ∃ s, load w = Normal s ∧ getCurrentMode s = JStr "light".
Proof.
  intros w.
  assert (Hv : "light" = "light" ∨ "light" = "dark") by (left; reflexivity).
  assert (Hs : stored (localStorage w) color_mode_key = Some (JSON_stringify (JStr "light")))
    by reflexivity.
  split; [exact Hv |]. split; [exact Hs |].
  exact (stored_mode_restored w "light" Hv Hs).
Defined.

(** C7. Idempotence: both of two [setMode m] calls in a row return, and the
    second leaves the storage, the body classes and the mode as the first
    left them. *)
Theorem setMode_idempotent (s : Session) (m : jsval) :
  ∃ s1 s2,
    setMode m s = Normal s1
    ∧ setMode m s1 = Normal s2
    ∧ localStorage (page s2) = localStorage (page s1)
    ∧ classList (page s2) = classList (page s1)
    ∧ has_marker s2 = has_marker s1
    ∧ getCurrentMode s2 = getCurrentMode s1.
Proof.
  destruct (setMode m s) as [s1 | e] eqn:H1; [| by rewrite setMode_run in H1].
  destruct (setMode m s1) as [s2 | e] eqn:H2; [| by rewrite setMode_run in H2].
  exists s1, s2. split; [done |]. split; [done |].
  split; [exact (setMode_storage _ _ _ H2) |].
  assert (Hsync : classList_contains "dark" (classList (page s1)) = strict_eq_str m "dark"
                  ∨ Object_is m (colorMode s1) = true).
  { rewrite setMode_run in H1. injection H1 as <-.
    destruct (Object_is m (colorMode s)) eqn:E1; [by right |].
    left. apply class_sync_contains. }
  assert (Hc : classList (page s2) = classList (page s1)).
  { rewrite setMode_run in H2. injection H2 as <-.
    destruct (Object_is m (colorMode s1)) eqn:E2; [done |]. simpl.
    apply class_sync_stable. by destruct Hsync. }
  split; [exact Hc |]. split.
  - unfold has_marker. by rewrite Hc.
  - unfold getCurrentMode.
    by rewrite (setMode_colorMode _ _ _ H2), (setMode_colorMode _ _ _ H1).
Qed.

(** C8 (as stated). The claim puts the sun icon next to the label ["DARK"],
    in light mode.  In light mode the button shows ["DARK"] with the inline
    drawing; the sun image is what it shows in dark mode. *)
Lemma light_mode_icon_is_not_sun :
  ¬ (label (Button_render (JStr "light")) = "DARK"
     ∧ glyph (Button_render (JStr "light")) = sun_icon)
  ∧ glyph (Button_render (JStr "dark")) = sun_icon.
Proof.
  split; [| reflexivity]. intros [_ H]. discriminate H.
Qed.

(** C8 (amended). For every current mode, pressing the button hands the
    setter ["dark"] when the mode is ["light"] and ["light"] otherwise, and
    the setter makes it the mode; the button shows ["DARK"] with the inline
    drawing exactly when the mode is ["light"], and ["LIGHT"] with the image
    [/assets/icon-sun.svg] for every other mode. *)
Theorem Button_contract (s : Session) :
  let mode := getCurrentMode s in
  (Button_onPress_argument mode = JStr "dark" ↔ mode = JStr "light")
  ∧ (Button_onPress_argument mode = JStr "light" ↔ mode ≠ JStr "light")
  ∧ (∃ s', Button_onPress s = Normal s'
           ∧ getCurrentMode s' = Button_onPress_argument mode)
  ∧ (label (Button_render mode) = "DARK"
     ∧ glyph (Button_render mode) = InlineSvg 20 20 moon_path ↔ mode = JStr "light")
  ∧ (label (Button_render mode) = "LIGHT"
     ∧ glyph (Button_render mode) = sun_icon ↔ mode ≠ JStr "light").
Proof.
  intros mode.
  assert (Hpress : ∃ s', Button_onPress s = Normal s'
                         ∧ getCurrentMode s' = Button_onPress_argument mode).
  { destruct (Button_onPress s) as [s' | e] eqn:Hp;
      [| by unfold Button_onPress in Hp; rewrite setMode_run in Hp].
    exists s'. split; [done |]. by apply setMode_colorMode in Hp. }
  unfold Button_onPress_argument, Button_render in *. simpl.
  destruct (strict_eq_str mode "light") eqn:E.
  - apply strict_eq_str_true in E.
    split; [done |]. split; [split; [done | by intros []] |].
    split; [exact Hpress |]. split; split; try done; by intros [].
  - pose proof (proj1 (strict_eq_str_false _ _) E) as Hne.
    split; [split; [done | by intros ?] |]. split; [done |].
    split; [exact Hpress |]. split; split; try done; by intros [].
Qed.

(** C9 (the code departs from it). Creation on first read: with nothing
    stored, the first load should leave the default under ["color-mode"].
    The load returns with the default as the mode, but the effect writes
    nothing and the storage still has no item under the key. *)
Theorem first_read_creates_no_record (font : string) (quota : nat) :
  ∃ s, load (served font (Available ∅ quota)) = Normal s
       ∧ getCurrentMode s = JStr "dark"
       ∧ stored (localStorage (page s)) color_mode_key = None.
Proof.
  set (w := served font (Available ∅ quota)).
  assert (Hw : stored (localStorage w) color_mode_key = None) by done.
  destruct (load_default w Hw) as (s & Hl & Hc).
  exists s. split; [exact Hl |]. split; [exact Hc |].
  by rewrite (load_storage _ _ Hl).
Qed.

(** C10. Total class sync: for every value [m] of the mode, the effect of
    [useColorMode] returns and leaves the class [dark] on the body exactly
    when [m] is the string ["dark"]; for every other value, string or not,
    the body classes are the former ones without [dark]. *)
Theorem class_sync_total (m : jsval) (w : World) :
  ∃ w', useColorMode_effect m w = (Normal tt, w')
        ∧ (classList_contains "dark" (classList w') = true ↔ m = JStr "dark")
        ∧ (m = JStr "dark"
           ∨ classList w' = classList_remove "dark" (classList w))
        ∧ localStorage w' = localStorage w.
Proof.
  rewrite useColorMode_effect_run. eexists. split; [reflexivity |]. simpl.
  split; [rewrite class_sync_contains; apply strict_eq_str_true |].
  split; [| done].
  unfold class_sync. destruct (strict_eq_str m "dark") eqn:E; [left | by right].
  by apply strict_eq_str_true.
Qed.




(** * Further properties of the hooks *)

(** ** Shared facts *)

Lemma blue_visit_loaded :
  load (served "font" (Available {[ "color-mode" := JSON_stringify (JStr "blue") ]} 5000))
  = Normal blue_visit.
Proof. reflexivity. Qed.

(** The initialiser logs at most one error. *)
Lemma initial_logs key initialValue w :
  ∃ v, useLocalStorage_initial key initialValue w = (Normal v, w)
       ∨ ∃ e, useLocalStorage_initial key initialValue w = (Normal v, logged e w).
Proof.
  destruct (localStorage w) as [items quota |] eqn:Hw.
  - destruct (items !! key) as [item |] eqn:Hk.
    + assert (Hs : stored (localStorage w) key = Some item) by by rewrite Hw.
      destruct (JSON.parse item) as [v |] eqn:Hp.
      * exists v. left. exact (initial_parsed _ _ _ _ _ Hs Hp).
      * destruct (decide (item = EmptyString)) as [-> | Hne].
        -- exists initialValue. left. exact (initial_empty_item _ _ _ Hs).
        -- exists initialValue. right. eexists.
           exact (initial_corrupt _ _ _ _ Hs Hne Hp).
    + exists initialValue. left. exact (initial_absent _ _ _ _ _ Hw Hk).
  - exists initialValue. right. eexists. exact (initial_denied _ _ _ Hw).
Qed.

(** The first state depends on the storage alone. *)
Lemma initial_value_storage key initialValue w1 w2 :
  localStorage w1 = localStorage w2 →
  fst (useLocalStorage_initial key initialValue w1)
  = fst (useLocalStorage_initial key initialValue w2).
Proof.
  intros H. unfold useLocalStorage_initial, try_catch, mbind, M_bind, getItem.
  rewrite H. destruct (localStorage w2) as [items quota |]; [| done].
  destruct (items !! key) as [[| c r] |]; try done.
  unfold JSON_parse. by destruct (JSON.parse (String c r)).
Qed.

Lemma load_mode_storage w1 w2 s1 s2 :
  localStorage w1 = localStorage w2 →
  load w1 = Normal s1 → load w2 = Normal s2 → colorMode s1 = colorMode s2.
Proof.
  intros H H1 H2.
  destruct (load_run w1) as (v1 & u1 & Hi1 & Hl1).
  destruct (load_run w2) as (v2 & u2 & Hi2 & Hl2).
  rewrite Hl1 in H1. rewrite Hl2 in H2. injection H1 as <-. injection H2 as <-.
  pose proof (initial_value_storage color_mode_key default_mode _ _ H) as Hf.
  rewrite Hi1, Hi2 in Hf. simpl in *. by injection Hf.
Qed.

Lemma class_sync_others m l :
  classList_remove "dark" (class_sync m l) = classList_remove "dark" l.
Proof.
  unfold class_sync. destruct (strict_eq_str m "dark").
  - unfold classList_add. destruct (classList_contains "dark" l); [done |].
    unfold classList_remove. rewrite filter_app. simpl.
    rewrite filter_cons_False by (intros H; by apply H). simpl.
    by rewrite app_nil_r.
  - apply classList_remove_absent, classList_contains_remove.
Qed.

Lemma class_sync_NoDup m l : NoDup l → NoDup (class_sync m l).
Proof.
  intros Hl. unfold class_sync. destruct (strict_eq_str m "dark").
  - unfold classList_add. destruct (classList_contains "dark" l) eqn:E; [done |].
    apply bool_decide_eq_false in E. apply NoDup_app. split; [done |].
    split; [| apply NoDup_singleton].
    intros x Hx Hd. apply list_elem_of_singleton in Hd. by subst.
  - by apply NoDup_filter.
Qed.

Lemma setMode_others m s s' :
  setMode m s = Normal s' → other_classes s' = other_classes s.
Proof.
  rewrite setMode_run. intros [= <-]. unfold other_classes.
  destruct (Object_is m (colorMode s)); [done |]. simpl. apply class_sync_others.
Qed.

Lemma setMode_returns m s : ∃ s', setMode m s = Normal s'.
Proof. rewrite setMode_run. eauto. Qed.

Lemma load_returns w : ∃ s, load w = Normal s.
Proof. destruct (load_run w) as (v & w0 & _ & ->). eauto. Qed.

(** A class other than the marker is on the body exactly when it is among
    the other classes. *)
Lemma elem_of_other_classes c s :
  c ≠ "dark" → c ∈ classList (page s) ↔ c ∈ other_classes s.
Proof.
  intros Hc. unfold other_classes, classList_remove.
  rewrite list_elem_of_filter. tauto.
Qed.

Lemma marker_elem_of s : has_marker s = true ↔ "dark" ∈ classList (page s).
Proof. apply classList_contains_true. Qed.

(** Two sessions in step with the same mode and with the same other classes
    have the same classes on the body. *)
Lemma same_classes s1 s2 :
  in_sync s1 → in_sync s2 → colorMode s1 = colorMode s2 →
  other_classes s1 = other_classes s2 →
  ∀ c, c ∈ classList (page s1) ↔ c ∈ classList (page s2).
Proof.
  intros H1 H2 Hm Ho c. destruct (decide (c = "dark")) as [-> | Hc].
  - rewrite <- !marker_elem_of. unfold in_sync in *. by rewrite H1, H2, Hm.
  - by rewrite !elem_of_other_classes, Ho.
Qed.

Lemma setModes_run ms s :
  ∃ s', setModes ms s = Normal s'
        ∧ localStorage (page s') = localStorage (page s)
        ∧ other_classes s' = other_classes s
        ∧ ∃ k, (k ≤ length ms)%nat
               ∧ console (page s')
                 = console (page s) ++ replicate k (ReferenceError "storedValue").
Proof.
  revert s. induction ms as [| m ms IH]; intros s.
  - exists s. repeat split; try done. exists 0%nat. simpl. by rewrite app_nil_r.
  - simpl. pose proof (setMode_run m s) as H1. rewrite H1.
    destruct (Object_is m (colorMode s)).
    + destruct (IH s) as (s' & Hr & Hst & Ho & k & Hk & Hc).
      exists s'. repeat split; try done. exists k. split; [lia | done].
    + destruct (IH {| colorMode := m; page := after_effects m (page s) |})
        as (s' & Hr & Hst & Ho & k & Hk & Hc).
      exists s'. split; [done |]. split; [done |].
      split; [rewrite Ho; unfold other_classes; simpl; apply class_sync_others |].
      exists (S k). split; [lia |]. rewrite Hc. simpl. by rewrite <- app_assoc.
Qed.

Lemma setModes_reachable ms s s' :
  reachable s → setModes ms s = Normal s' → reachable s'.
Proof.
  revert s. induction ms as [| m ms IH]; intros s Hr; simpl.
  - by intros [= <-].
  - destruct (setMode m s) as [s1 | e] eqn:E; [| done].
    apply IH. by eapply reachable_setMode.
Qed.

(** ** What a session never does *)

(** X1. The hooks never throw and never write: on every page, the load and
    any calls of [setMode] after it return, and the storage stays the one
    the page was loaded with.  The load adds to the console at most one
    error of the initialiser and then the [ReferenceError] on
    [storedValue]; the calls add that same error, at most once per call. *)
Theorem sessions_never_write (w : World) (ms : list jsval) :
  ∃ s0 s,
    load w = Normal s0
    ∧ setModes ms s0 = Normal s
    ∧ localStorage (page s0) = localStorage w
    ∧ localStorage (page s) = localStorage w
    ∧ (∃ first, (length first ≤ 1)%nat
                ∧ console (page s0)
                  = console w ++ first ++ [ReferenceError "storedValue"])
    ∧ ∃ k, (k ≤ length ms)%nat
           ∧ console (page s)
             = console (page s0) ++ replicate k (ReferenceError "storedValue").
Proof.
  destruct (load_returns w) as (s0 & Hl).
  destruct (setModes_run ms s0) as (s & Hr & Hst & _ & Hk).
  exists s0, s. split; [done |]. split; [done |].
  pose proof (load_storage _ _ Hl) as H0. split; [done |].
  split; [by rewrite Hst |]. split; [| done].
  destruct (load_run w) as (v & w0 & Hi & Hl'). rewrite Hl' in Hl.
  injection Hl as <-. simpl.
  destruct (initial_logs color_mode_key default_mode w) as (v' & [Hq | [e Hq]]);
    rewrite Hi in Hq; injection Hq as _ ->.
  - exists []. split; [simpl; lia | reflexivity].
  - exists [e]. split; [simpl; lia |]. simpl. by rewrite <- app_assoc.
Qed.

(** X2. A reload undoes every change of mode: whatever calls of [setMode]
    came after the load, the mode after a reload is the mode of the first
    load. *)
Theorem reload_restores_first_mode (font : string) (w : World) (ms : list jsval) :
  ∃ s0 s s',
    load w = Normal s0
    ∧ setModes ms s0 = Normal s
    ∧ load (reload font s) = Normal s'
    ∧ getCurrentMode s' = getCurrentMode s0.
Proof.
  destruct (load_returns w) as (s0 & Hl).
  destruct (setModes_run ms s0) as (s & Hr & Hst & _).
  destruct (load_returns (reload font s)) as (s' & Hl').
  exists s0, s, s'. repeat split; try done.
  apply (load_mode_storage (reload font s) w); [| done | done].
  simpl. rewrite Hst. exact (load_storage _ _ Hl).
Qed.

(** X3. The effect of [useColorMode] touches the marker only: the other
    classes of the body stay, in their order, the console and the storage
    are as before, and a class list without duplicates stays without. *)
Theorem class_sync_keeps_other_classes (m : jsval) (w : World) :
  ∃ w', useColorMode_effect m w = (Normal tt, w')
        ∧ classList_remove "dark" (classList w') = classList_remove "dark" (classList w)
        ∧ (NoDup (classList w) → NoDup (classList w'))
        ∧ console w' = console w
        ∧ localStorage w' = localStorage w.
Proof.
  rewrite useColorMode_effect_run. eexists. split; [reflexivity |]. simpl.
  split; [apply class_sync_others |]. split; [apply class_sync_NoDup | done].
Qed.

(** The effect on the body as [RootLayout] renders it, for a mode that is
    not ["dark"]. *)
Lemma class_sync_keeps_other_classes_witness :
  NoDup (classList (served "font" Denied))
  ∧ ∃ w', useColorMode_effect (JStr "light") (served "font" Denied) = (Normal tt, w')
          ∧ NoDup (classList w').
Proof.
  assert (H : NoDup (classList (served "font" Denied))).
  { refine (bool_decide_unpack _ _). vm_compute. exact I. }
  split; [exact H |].
  destruct (class_sync_keeps_other_classes (JStr "light") (served "font" Denied))
    as (w' & He & _ & Hn & _).
  exists w'. split; [exact He | exact (Hn H)].
Defined.

(** ** How calls compose *)

(** X4. The last call wins: after [setMode m1] and then [setMode m2] the
    mode and the classes on the body are those that [setMode m2] alone
    would have given. *)
Theorem last_setMode_wins (s : Session) (m1 m2 : jsval) :
  reachable s →
  ∃ s1 s12 s2,
    setMode m1 s = Normal s1
    ∧ setMode m2 s1 = Normal s12
    ∧ setMode m2 s = Normal s2
    ∧ getCurrentMode s12 = getCurrentMode s2
    ∧ (∀ c, c ∈ classList (page s12) ↔ c ∈ classList (page s2))
    ∧ localStorage (page s12) = localStorage (page s2).
Proof.
  intros Hr.
  destruct (setMode_returns m1 s) as (s1 & H1).
  destruct (setMode_returns m2 s1) as (s12 & H12).
  destruct (setMode_returns m2 s) as (s2 & H2).
  exists s1, s12, s2. split; [done |]. split; [done |]. split; [done |].
  assert (Hm : colorMode s12 = colorMode s2)
    by by rewrite (setMode_colorMode _ _ _ H12), (setMode_colorMode _ _ _ H2).
  split; [exact Hm |]. split.
  - apply same_classes; [| | exact Hm |].
    + apply reachable_in_sync.
      exact (reachable_setMode _ _ _ (reachable_setMode _ _ _ Hr H1) H12).
    + apply reachable_in_sync. exact (reachable_setMode _ _ _ Hr H2).
    + rewrite (setMode_others _ _ _ H12), (setMode_others _ _ _ H1).
      symmetry. exact (setMode_others _ _ _ H2).
  - rewrite (setMode_storage _ _ _ H12), (setMode_storage _ _ _ H1).
    symmetry. exact (setMode_storage _ _ _ H2).
Qed.

(** From the first visit: light, then dark. *)
Lemma last_setMode_wins_witness :
  reachable first_visit
  ∧ ∃ s1 s12 s2,
      setMode (JStr "light") first_visit = Normal s1
      ∧ setMode (JStr "dark") s1 = Normal s12
      ∧ setMode (JStr "dark") first_visit = Normal s2
      ∧ getCurrentMode s12 = getCurrentMode s2
      ∧ (∀ c, c ∈ classList (page s12) ↔ c ∈ classList (page s2))
      ∧ localStorage (page s12) = localStorage (page s2).
Proof.
  assert (Hr : reachable first_visit).
  { eapply reachable_load. exact first_visit_loaded. }
  split; [exact Hr |].
  exact (last_setMode_wins first_visit (JStr "light") (JStr "dark") Hr).
Defined.

(** ** The switch *)

Lemma Object_is_ne a b : a ≠ b → Object_is a b = false.
Proof.
  intros H. destruct (Object_is a b) eqn:E; [| done].
  by apply Object_is_eq in E.
Qed.

Lemma press_run s :
  ∃ s', Button_onPress s = Normal s'
        ∧ colorMode s' = Button_onPress_argument (colorMode s)
        ∧ other_classes s' = other_classes s
        ∧ localStorage (page s') = localStorage (page s).
Proof.
  unfold Button_onPress.
  destruct (setMode_returns (Button_onPress_argument (colorMode s)) s) as (s' & H).
  exists s'. split; [done |]. split; [exact (setMode_colorMode _ _ _ H) |].
  split; [exact (setMode_others _ _ _ H) | exact (setMode_storage _ _ _ H)].
Qed.

Lemma press_reachable s s' : reachable s → Button_onPress s = Normal s' → reachable s'.
Proof. intros Hr H. exact (reachable_setMode _ _ _ Hr H). Qed.

(** X5. Pressing the switch twice in light or dark mode gives the mode
    back, with the marker and the classes on the body as they were (as a
    set) and the storage untouched. *)
Theorem press_twice_restores (s : Session) :
  reachable s →
  getCurrentMode s = JStr "light" ∨ getCurrentMode s = JStr "dark" →
  ∃ s1 s2,
    Button_onPress s = Normal s1
    ∧ Button_onPress s1 = Normal s2
    ∧ getCurrentMode s1 ≠ getCurrentMode s
    ∧ getCurrentMode s2 = getCurrentMode s
    ∧ has_marker s2 = has_marker s
    ∧ (∀ c, c ∈ classList (page s2) ↔ c ∈ classList (page s))
    ∧ localStorage (page s2) = localStorage (page s).
Proof.
  intros Hr Hv. unfold getCurrentMode in *.
  destruct (press_run s) as (s1 & H1 & Hm1 & Ho1 & Hst1).
  destruct (press_run s1) as (s2 & H2 & Hm2 & Ho2 & Hst2).
  exists s1, s2. split; [done |]. split; [done |].
  assert (Hne : colorMode s1 ≠ colorMode s)
    by (rewrite Hm1; destruct Hv as [-> | ->]; done).
  assert (Hback : colorMode s2 = colorMode s)
    by (rewrite Hm2, Hm1; destruct Hv as [-> | ->]; done).
  pose proof (reachable_in_sync _ Hr) as Hs.
  pose proof (reachable_in_sync _ (press_reachable _ _ (press_reachable _ _ Hr H1) H2))
    as Hs2.
  split; [exact Hne |]. split; [exact Hback |]. split; [| split].
  - unfold in_sync in *. by rewrite Hs, Hs2, Hback.
  - apply same_classes; [done | done | done |]. by rewrite Ho2, Ho1.
  - by rewrite Hst2, Hst1.
Qed.

(** Two presses on the first visit. *)
Lemma press_twice_restores_witness :
  reachable first_visit
  ∧ (getCurrentMode first_visit = JStr "light" ∨ getCurrentMode first_visit = JStr "dark")
  ∧ ∃ s1 s2,
      Button_onPress first_visit = Normal s1
      ∧ Button_onPress s1 = Normal s2
      ∧ getCurrentMode s1 ≠ getCurrentMode first_visit
      ∧ getCurrentMode s2 = getCurrentMode first_visit
      ∧ has_marker s2 = has_marker first_visit
      ∧ (∀ c, c ∈ classList (page s2) ↔ c ∈ classList (page first_visit))
      ∧ localStorage (page s2) = localStorage (page first_visit).
Proof.
  assert (Hr : reachable first_visit).
  { eapply reachable_load. exact first_visit_loaded. }
  assert (Hv : getCurrentMode first_visit = JStr "light"
               ∨ getCurrentMode first_visit = JStr "dark") by (right; reflexivity).
  split; [exact Hr |]. split; [exact Hv |].
  exact (press_twice_restores first_visit Hr Hv).
Defined.

(** The classes come back as a set, not as a list: the marker that
    [RootLayout] put first is last after two presses. *)
Example press_twice_moves_marker :
  ∃ s1 s2, Button_onPress first_visit = Normal s1
           ∧ Button_onPress s1 = Normal s2
           ∧ classList (page first_visit) = ["dark"; "font"]
           ∧ classList (page s2) = ["font"; "dark"].
Proof. do 2 eexists. repeat split. Qed.

(** X6. A mode that is neither ["light"] nor ["dark"] shows as light mode
    with the label of dark mode: the body has no marker, the switch reads
    ["LIGHT"] with the sun image, and pressing it sets ["light"] and leaves
    the body classes as they are. *)
Theorem press_in_unknown_mode (s : Session) :
  reachable s →
  getCurrentMode s ≠ JStr "light" → getCurrentMode s ≠ JStr "dark" →
  has_marker s = false
  ∧ label (Button_render (getCurrentMode s)) = "LIGHT"
  ∧ glyph (Button_render (getCurrentMode s)) = sun_icon
  ∧ ∃ s', Button_onPress s = Normal s'
          ∧ getCurrentMode s' = JStr "light"
          ∧ classList (page s') = classList (page s)
          ∧ has_marker s' = false.
Proof.
  intros Hr Hl Hd. unfold getCurrentMode in *.
  apply strict_eq_str_false in Hl, Hd.
  pose proof (reachable_in_sync _ Hr) as Hs. unfold in_sync in Hs. rewrite Hd in Hs.
  split; [exact Hs |]. unfold Button_render. simpl. rewrite Hl.
  split; [done |]. split; [done |].
  unfold Button_onPress, Button_onPress_argument. rewrite Hl, setMode_run.
  rewrite Object_is_ne
    by (intros H; rewrite <- H in Hl; vm_compute in Hl; discriminate Hl).
  eexists. split; [reflexivity |]. split; [done |].
  assert (Hc : class_sync (JStr "light") (classList (page s)) = classList (page s))
    by (by apply class_sync_stable).
  split; [exact Hc |]. unfold has_marker. simpl. by rewrite Hc.
Qed.

(** The page loaded with ["blue"] stored. *)
Lemma press_in_unknown_mode_witness :
  reachable blue_visit
  ∧ getCurrentMode blue_visit ≠ JStr "light"
  ∧ getCurrentMode blue_visit ≠ JStr "dark"
  ∧ has_marker blue_visit = false
  ∧ label (Button_render (getCurrentMode blue_visit)) = "LIGHT"
  ∧ glyph (Button_render (getCurrentMode blue_visit)) = sun_icon
  ∧ ∃ s', Button_onPress blue_visit = Normal s'
          ∧ getCurrentMode s' = JStr "light"
          ∧ classList (page s') = classList (page blue_visit)
          ∧ has_marker s' = false.
Proof.
  assert (Hr : reachable blue_visit).
  { eapply reachable_load. exact blue_visit_loaded. }
  assert (Hl : getCurrentMode blue_visit ≠ JStr "light") by (intros H; discriminate H).
  assert (Hd : getCurrentMode blue_visit ≠ JStr "dark") by (intros H; discriminate H).
  split; [exact Hr |]. split; [exact Hl |]. split; [exact Hd |].
  exact (press_in_unknown_mode blue_visit Hr Hl Hd).
Defined.

(** X9. Every press changes the mode, to ["light"] or ["dark"], and leaves
    the storage as it is. *)
Theorem press_changes_mode (s : Session) :
  ∃ s', Button_onPress s = Normal s'
        ∧ (getCurrentMode s' = JStr "light" ∨ getCurrentMode s' = JStr "dark")
        ∧ getCurrentMode s' ≠ getCurrentMode s
        ∧ localStorage (page s') = localStorage (page s).
Proof.
  destruct (press_run s) as (s' & H & Hm & _ & Hst). unfold getCurrentMode.
  exists s'. split; [done |]. rewrite Hm. unfold Button_onPress_argument.
  destruct (strict_eq_str (colorMode s) "light") eqn:E.
  - apply strict_eq_str_true in E. rewrite E.
    split; [by right |]. split; [done | done].
  - apply strict_eq_str_false in E.
    split; [by left |]. split; [by intros H' | done].
Qed.

(** ** What is read from the storage *)

(** X7. The stored value is not checked against the two modes: whatever
    value the item under ["color-mode"] parses to is the mode after the
    load, string or not; the body gets the marker only for ["dark"], and the
    load adds the [ReferenceError] on [storedValue] to the console and
    nothing else. *)
Theorem stored_value_not_validated (w : World) (item : string) (v : jsval) :
  stored (localStorage w) color_mode_key = Some item →
  JSON.parse item = Some v →
  ∃ s, load w = Normal s
       ∧ getCurrentMode s = v
       ∧ (has_marker s = true ↔ v = JStr "dark")
       ∧ console (page s) = console w ++ [ReferenceError "storedValue"]
       ∧ localStorage (page s) = localStorage w.
Proof.
  intros Hs Hp. rewrite (load_stored _ _ _ Hs Hp). eexists.
  split; [reflexivity |]. split; [reflexivity |]. split; [| done].
  unfold has_marker. simpl. rewrite class_sync_contains. apply strict_eq_str_true.
Qed.

(** A page that has [null] stored. *)
Lemma stored_value_not_validated_witness :
  let w := served "font" (Available {[ color_mode_key := "null" ]} 5000) in
  stored (localStorage w) color_mode_key = Some "null"
  ∧ JSON.parse "null" = Some JNull
  ∧ ∃ s, load w = Normal s
         ∧ getCurrentMode s = JNull
         ∧ (has_marker s = true ↔ JNull = JStr "dark")
         ∧ console (page s) = console w ++ [ReferenceError "storedValue"]
         ∧ localStorage (page s) = localStorage w.
Proof.
  intros w.
  assert (Hs : stored (localStorage w) color_mode_key = Some "null") by reflexivity.
  assert (Hp : JSON.parse "null" = Some JNull) by reflexivity.
  split; [exact Hs |]. split; [exact Hp |].
  exact (stored_value_not_validated w "null" JNull Hs Hp).
Defined.

(** X8. Round trip through the JSON text: for every key and every string
    [v], quotes, backslashes and control characters included, the
    initialiser of [useLocalStorage] returns [v] from an item that is
    [JSON.stringify(v)], and logs nothing. *)
Theorem initial_reads_stringified (key : string) (initialValue : jsval)
    (v : string) (w : World) :
  stored (localStorage w) key = Some (JSON_stringify (JStr v)) →
  useLocalStorage_initial key initialValue w = (Normal (JStr v), w).
Proof.
  intros Hs. exact (initial_parsed _ _ _ _ _ Hs (parse_stringify_string v)).
Qed.

(** A string with a backslash and a quote in it, under another key. *)
Lemma initial_reads_stringified_witness :
  let v := String "a" (String JSON.BACKSLASH (String JSON.DQUOTE "b")) in
  let w := served "font" (Available {[ "theme" := JSON_stringify (JStr v) ]} 5000) in
  stored (localStorage w) "theme" = Some (JSON_stringify (JStr v))
  ∧ useLocalStorage_initial "theme" JNull w = (Normal (JStr v), w).
Proof.
  intros v w.
  assert (Hs : stored (localStorage w) "theme" = Some (JSON_stringify (JStr v)))
    by reflexivity.
  split; [exact Hs |].
  exact (initial_reads_stringified "theme" JNull v w Hs).
Defined.

(** X10. On the page as [RootLayout] serves it the load leaves exactly the
    classes of the mode: in dark mode the two classes as rendered, with no
    second [dark]; in any other mode the font class alone. *)
Theorem served_page_classes (font : string) (st : Storage) :
  font ≠ "dark" →
  ∃ s, load (served font st) = Normal s
       ∧ classList (page s)
         = if strict_eq_str (getCurrentMode s) "dark" then ["dark"; font] else [font].
Proof.
  intros Hf. set (w := served font st).
  destruct (load_run w) as (v & w0 & Hi & Hl).
  destruct (initial_returns color_mode_key default_mode w) as (v' & w0' & Hi' & _ & Hc).
  rewrite Hi in Hi'. injection Hi' as <- <-.
  eexists. split; [exact Hl |]. unfold getCurrentMode. simpl. rewrite Hc. simpl.
  unfold class_sync, RootLayout_body_classes. destruct (strict_eq_str v "dark").
  - apply classList_add_present, classList_contains_true. set_solver.
  - unfold classList_remove.
    rewrite filter_cons_False by (intros H; by apply H).
    by rewrite filter_cons_True, filter_nil.
Qed.

(** A first visit where storage is denied. *)
Lemma served_page_classes_witness :
  "font" ≠ "dark"
  ∧ ∃ s, load (served "font" Denied) = Normal s
         ∧ classList (page s)
           = if strict_eq_str (getCurrentMode s) "dark" then ["dark"; "font"] else ["font"].
Proof.
  assert (Hf : "font" ≠ "dark") by (intros H; discriminate H).
  split; [exact Hf |].
  exact (served_page_classes "font" Denied Hf).
Defined.

(** ** useLocalStorage on its own *)

(** X11. [useLocalStorage], with any key and initial value, never creates or
    changes an item: mounting it and setting its state return, give the
    state asked for, and leave the storage and the body classes as they
    were. *)
Theorem useLocalStorage_never_writes (key : string) (initialValue m : jsval) (w : World) :
  ∃ v w1 w2,
    mount (useLocalStorage key initialValue) w = (Normal v, w1)
    ∧ localStorage w1 = localStorage w
    ∧ classList w1 = classList w
    ∧ set_state (useLocalStorage key initialValue) m v w1 = (Normal m, w2)
    ∧ localStorage w2 = localStorage w
    ∧ classList w2 = classList w.
Proof.
  destruct (initial_returns key initialValue w) as (v & w0 & Hi & Hst & Hc).
  exists v, (logged (ReferenceError "storedValue") w0).
  assert (Hm : mount (useLocalStorage key initialValue) w
               = (Normal v, logged (ReferenceError "storedValue") w0)).
  { unfold mount, mbind, M_bind.
    change (initial_state (useLocalStorage key initialValue))
      with (useLocalStorage_initial key initialValue).
    rewrite Hi.
    change (effects (useLocalStorage key initialValue) v)
      with (useLocalStorage_effect key initialValue v).
    by rewrite useLocalStorage_effect_run. }
  unfold set_state. destruct (Object_is m v) eqn:E.
  - apply Object_is_eq in E. subst m.
    exists (logged (ReferenceError "storedValue") w0). by repeat split.
  - exists (logged (ReferenceError "storedValue")
              (logged (ReferenceError "storedValue") w0)).
    split; [exact Hm |]. split; [done |]. split; [done |].
    split; [| by split].
    unfold mbind, M_bind.
    change (effects (useLocalStorage key initialValue) m)
      with (useLocalStorage_effect key initialValue m).
    by rewrite useLocalStorage_effect_run.
Qed.
